(** * ross.results: the [Results] array wrapper and its renderers

    A shallow embedding of [ross/results.py].  [Results] subclasses
    [numpy.ndarray]; it installs a dictionary of extra attributes on the
    array object, re-installs them on derived arrays in
    [__array_finalize__], and extends the pickling protocol of [ndarray]
    with the attribute dictionary.  Six subclasses add plotting methods.

    Python objects are modelled by their class, their array payload and
    their instance dictionary.  Exceptions are values of [exn] carried by
    the [result] monad.  Array elements are rationals: the arithmetic of
    the renderers is exact here, whereas numpy rounds to binary64.

    The operations of numpy, pickle and matplotlib that the module calls
    ([asarray], [view], indexing, [ndarray.__reduce__],
    [ndarray.__setstate__], [ax.plot]) are written out as far as the
    module depends on them.  A pickle is the sequence of opcodes that
    rebuilds the object from its reduce value: the reconstructor call, the
    state, BUILD (which calls [__setstate__]) and STOP; the byte encoding
    of the opcodes' arguments is not part of the module.  [setattr] and
    [getattr] act on the instance dictionary, which is what Python does
    for the names of [plain_name]: the data attributes of the [ndarray]
    type (shape, size, T, ...) are handled by numpy itself, and the
    statements about which attribute dictionaries work exclude them. *)

From Stdlib Require Import QArith Qabs.
From stdpp Require Import gmap strings list fin_maps.

Set Warnings "-register-all".
Set Default Proof Using "Type".

Open Scope string_scope.
Open Scope list_scope.

(** ** Exceptions and the error monad *)

Inductive exn :=
| AttributeError
| IndexError
| TypeError
| ValueError
| UnboundLocalError
| NotImplementedError
| EOFError
| UnpicklingError.

Inductive result (A : Type) :=
| Ok (a : A)
| Raise (e : exn).

Arguments Ok {A} a.
Arguments Raise {A} e.

Definition bind {A B} (r : result A) (k : A → result B) : result B :=
  match r with
  | Ok a => k a
  | Raise e => Raise e
  end.

Notation "x <- r ;; k" := (bind r (λ x, k))
  (at level 100, r at next level, right associativity).

#[global] Instance exn_eq_dec : EqDecision exn.
Proof. solve_decision. Defined.

(** [try: r except e0: h] *)
Definition try_except {A} (r : result A) (e0 : exn) (h : result A) : result A :=
  match r with
  | Ok a => Ok a
  | Raise e => if decide (e = e0) then h else Raise e
  end.

Fixpoint mapM {A B} (f : A → result B) (l : list A) : result (list B) :=
  match l with
  | [] => Ok []
  | a :: l' => b <- f a ;; bs <- mapM f l' ;; Ok (b :: bs)
  end.

(** ** Arrays and Python values *)

(** A numpy array: its shape and its buffer in row-major order. *)
Record ndarray := mk_ndarray {
  shape : list nat;
  data : list Q
}.

Definition size_of (dims : list nat) : nat := foldr Nat.mul 1 dims.

(** The buffer holds exactly the elements the shape announces. *)
Definition wf_ndarray (a : ndarray) : Prop :=
  length (data a) = size_of (shape a).

Inductive pyval :=
| PyNone
| PyBool (b : bool)
| PyInt (z : Z)
| PyFloat (q : Q)
| PyStr (s : string)
| PyBytes (raw : list Q)
| PyList (l : list pyval)
| PyTuple (l : list pyval)
| PyArray (a : ndarray)
| PyDict (d : gmap string pyval).

(** The classes of the module, and plain [numpy.ndarray]. *)
Inductive pyclass :=
| ndarray_cls
| Results
| CampbellResults
| FrequencyResponseResults
| ForcedResponseResults
| ModeShapeResults
| StaticResults
| ConvergenceResults.

(** An array object: [inst_dict] is its [__dict__] (empty for a plain
    [ndarray], which has none). *)
Record instance := mk_instance {
  ob_type : pyclass;
  payload : ndarray;
  inst_dict : gmap string pyval
}.

(** The name under which [Results] keeps the attribute dictionary. *)
Definition registry : string := "_new_attributes".

(** The data attributes of the [ndarray] type.  Assigning to one of these
    names does not reach the instance dictionary: numpy refuses it
    ([size], [T], [ndim], ...) or changes the array itself ([shape],
    [flat], [dtype], ...). *)
Definition ndarray_attributes : list string :=
  ["T"; "base"; "ctypes"; "data"; "device"; "dtype"; "flags"; "flat";
   "imag"; "itemsize"; "mT"; "nbytes"; "ndim"; "real"; "shape"; "size";
   "strides"].

(** A name that [setattr] stores in the instance dictionary: neither a
    data attribute of [ndarray] nor a special name [__...]. *)
Definition plain_name (k : string) : bool :=
  negb (String.prefix "__" k) && bool_decide (k ∉ ndarray_attributes).

(** A dictionary all of whose keys are such names. *)
Definition plain_names (d : gmap string pyval) : Prop :=
  map_Forall (λ k _, plain_name k = true) d.

(** [getattr(o, k)], [getattr(o, k, v)] and [setattr(o, k, v)] on the
    instance dictionary. *)
Definition getattr (o : instance) (k : string) : result pyval :=
  match inst_dict o !! k with
  | Some v => Ok v
  | None => Raise AttributeError
  end.

Definition getattr_default (o : instance) (k : string) (v : pyval) : pyval :=
  default v (inst_dict o !! k).

Definition setattr (o : instance) (k : string) (v : pyval) : instance :=
  {| ob_type := ob_type o; payload := payload o;
     inst_dict := <[k := v]> (inst_dict o) |}.

(** [v.items()]: only dictionaries have the method. *)
Definition items (v : pyval) : result (gmap string pyval) :=
  match v with
  | PyDict d => Ok d
  | _ => Raise AttributeError
  end.

(** [for k, v in d.items(): setattr(o, k, f k v)] *)
Definition setattr_each (f : string → pyval → pyval)
    (d : gmap string pyval) (o : instance) : instance :=
  map_fold (λ k v acc, setattr acc k (f k v)) o d.

(** ** class Results *)

(** [Results.__array_finalize__(self, obj)] *)
Definition Results_array_finalize (self : instance) (obj : option instance)
    : result instance :=
  match obj with
  | None => Ok self
  | Some obj =>
      try_except
        (reg <- getattr obj registry ;;
         d <- items reg ;;
         Ok (setattr_each (λ k v, getattr_default obj k v) d self))
        AttributeError
        (Ok self)
  end.

(** [arr.view(cls)]: a new object of class [cls] on the buffer of [arr],
    finalized from [arr]. *)
Definition view (arr : instance) (cls : pyclass) : result instance :=
  Results_array_finalize
    {| ob_type := cls; payload := payload arr; inst_dict := ∅ |} (Some arr).

(** [np.asarray(input_array)] for an input that is already numeric array
    data: a plain [ndarray]. *)
Definition asarray (input_array : ndarray) : instance :=
  {| ob_type := ndarray_cls; payload := input_array; inst_dict := ∅ |}.

(** [Results.__new__(cls, input_array, new_attributes=None)] *)
Definition Results_new (cls : pyclass) (input_array : ndarray)
    (new_attributes : pyval) : result instance :=
  obj <- view (asarray input_array) cls ;;
  d <- items new_attributes ;;
  let obj := setattr_each (λ _ v, v) d obj in
  Ok (setattr obj registry new_attributes).

(** What numpy does when an operation on [src] yields a new array of the
    same class (a slice, a copy, the output of an arithmetic operation):
    the new object starts without instance attributes and is finalized
    from [src]. *)
Definition ndarray_derive (src : instance) (p : ndarray) : result instance :=
  Results_array_finalize
    {| ob_type := ob_type src; payload := p; inst_dict := ∅ |} (Some src).

(** [self.copy()] *)
Definition ndarray_copy (self : instance) : result instance :=
  ndarray_derive self (payload self).

(** [self[start:stop]] along the first axis. *)
Definition ndarray_getslice (self : instance) (start stop : nat)
    : result instance :=
  match shape (payload self) with
  | [] => Raise IndexError
  | n :: rest =>
      let stop := Nat.min stop n in
      let start := Nat.min start stop in
      let row := size_of rest in
      ndarray_derive self
        {| shape := (stop - start)%nat :: rest;
           data := take ((stop - start) * row) (drop (start * row) (data (payload self))) |}
  end.

(** [self + c] for a scalar [c]. *)
Definition ndarray_add_scalar (self : instance) (c : Q) : result instance :=
  ndarray_derive self
    {| shape := shape (payload self);
       data := (λ x, Qplus x c) <$> data (payload self) |}.

(** *** Pickling *)

(** What [ndarray.__reduce__] returns: the reconstructor's class argument
    and the state tuple (version, shape, dtype, is_fortran, buffer). *)
Record reduced := mk_reduced {
  r_cls : pyclass;
  r_state : list pyval
}.

Definition ndarray_reduce (self : instance) : reduced :=
  {| r_cls := ob_type self;
     r_state := [PyInt 1;
                 PyTuple ((λ n, PyInt (Z.of_nat n)) <$> shape (payload self));
                 PyStr "<f8";
                 PyBool false;
                 PyBytes (data (payload self))] |}.

(** [Results.__reduce__(self)] *)
Definition Results_reduce (self : instance) : result reduced :=
  let pickled_state := ndarray_reduce self in
  reg <- getattr self registry ;;
  let new_state := r_state pickled_state ++ [reg] in
  Ok {| r_cls := r_cls pickled_state; r_state := new_state |}.

Definition as_dim (v : pyval) : result nat :=
  match v with
  | PyInt z => if decide (0 ≤ z)%Z then Ok (Z.to_nat z) else Raise ValueError
  | _ => Raise TypeError
  end.

(** [ndarray.__setstate__(self, state)]: numpy accepts a 5-tuple whose
    buffer has the size the shape requires. *)
Definition ndarray_setstate (self : instance) (state : list pyval)
    : result instance :=
  match state with
  | [PyInt _; PyTuple dims; PyStr _; PyBool _; PyBytes raw] =>
      dims <- mapM as_dim dims ;;
      if decide (length raw = size_of dims)
      then Ok {| ob_type := ob_type self;
                 payload := {| shape := dims; data := raw |};
                 inst_dict := inst_dict self |}
      else Raise ValueError
  | _ => Raise TypeError
  end.

(** [state[-1]] and [state[0:-1]] *)
Definition index_last (state : list pyval) : result pyval :=
  match last state with
  | Some v => Ok v
  | None => Raise IndexError
  end.

(** [Results.__setstate__(self, state)] *)
Definition Results_setstate (self : instance) (state : list pyval)
    : result instance :=
  reg <- index_last state ;;
  let self := setattr self registry reg in
  reg <- getattr self registry ;;
  d <- items reg ;;
  let self := setattr_each (λ _ v, v) d self in
  ndarray_setstate self (removelast state).

(** The reconstructor named in the reduce value:
    [ndarray.__new__(cls, (0,), 'b')], finalized with [obj = None]. *)
Definition reconstruct (cls : pyclass) : result instance :=
  Results_array_finalize
    {| ob_type := cls; payload := {| shape := [0%nat]; data := [] |};
       inst_dict := ∅ |} None.

(** [pickle.dump(self, f)] in [Results.save] records the reduce value of
    the object; loading calls the reconstructor and then [__setstate__]. *)
Definition pickle_dumps (self : instance) : result reduced :=
  Results_reduce self.

Definition pickle_loads (r : reduced) : result instance :=
  obj <- reconstruct (r_cls r) ;;
  Results_setstate obj (r_state r).

(** The opcodes of the pickle that [pickle.dump] writes for an object with
    a reduce value: [REDUCE] stands for the reconstructor, its arguments
    and the call; [STATE] for the opcodes that push the state tuple;
    [BUILD] calls [__setstate__] with it; [STOP] ends the pickle. *)
Inductive pickle_op :=
| REDUCE (cls : pyclass)
| STATE (state : list pyval)
| BUILD
| STOP.

(** [pickle.dump(self, f)], as called by [Results.save]. *)
Definition pickle_dump (self : instance) : result (list pickle_op) :=
  r <- Results_reduce self ;;
  Ok [REDUCE (r_cls r); STATE (r_state r); BUILD; STOP].

(** [pickle.load(f)]: the unpickler runs the opcodes until [STOP] and
    raises when the input ends before.  A byte sequence cut inside an
    opcode ends, for the unpickler, before that opcode. *)
Fixpoint pickle_load_from (obj : option instance)
    (state : option (list pyval)) (ops : list pickle_op) : result instance :=
  match ops with
  | [] => Raise EOFError
  | REDUCE cls :: ops =>
      o <- reconstruct cls ;; pickle_load_from (Some o) state ops
  | STATE s :: ops => pickle_load_from obj (Some s) ops
  | BUILD :: ops =>
      match obj, state with
      | Some o, Some s =>
          o <- Results_setstate o s ;; pickle_load_from (Some o) None ops
      | _, _ => Raise UnpicklingError
      end
  | STOP :: _ =>
      match obj with
      | Some o => Ok o
      | None => Raise UnpicklingError
      end
  end.

Definition pickle_load (ops : list pickle_op) : result instance :=
  pickle_load_from None None ops.

(** [Results.plot(self, *args, **kwargs)] *)
Definition Results_plot {A} (self : instance) (args : list pyval)
    (kwargs : gmap string pyval) : result A :=
  Raise NotImplementedError.

(** The class whose [plot] the attribute lookup [self.plot] finds: each of
    the six subclasses defines its own, [Results] defines the abstract one
    and [ndarray] has none. *)
Definition plot_owner (cls : pyclass) : result pyclass :=
  match cls with
  | ndarray_cls => Raise AttributeError
  | Results => Ok Results
  | CampbellResults => Ok CampbellResults
  | FrequencyResponseResults => Ok FrequencyResponseResults
  | ForcedResponseResults => Ok ForcedResponseResults
  | ModeShapeResults => Ok ModeShapeResults
  | StaticResults => Ok StaticResults
  | ConvergenceResults => Ok ConvergenceResults
  end.

(** ** Array indexing used by the renderers *)

(** [a[..., k]] *)
Definition index_last_axis (a : ndarray) (k : nat) : result ndarray :=
  match reverse (shape a) with
  | [] => Raise IndexError
  | m :: lead =>
      if decide (k < m)%nat
      then Ok {| shape := reverse lead;
                 data := (λ i, nth (i * m + k) (data a) 0%Q)
                           <$> seq 0 (size_of lead) |}
      else Raise IndexError
  end.

(** [a[:, i]] *)
Definition column (a : ndarray) (i : nat) : result ndarray :=
  match shape a with
  | r :: c :: rest =>
      if decide (i < c)%nat
      then let w := size_of rest in
           Ok {| shape := r :: rest;
                 data := concat ((λ s, take w (drop ((s * c + i) * w) (data a)))
                                   <$> seq 0 r) |}
      else Raise IndexError
  | _ => Raise IndexError
  end.

(** [a[i]] *)
Definition getitem (a : ndarray) (i : nat) : result ndarray :=
  match shape a with
  | [] => Raise IndexError
  | n :: rest =>
      if decide (i < n)%nat
      then Ok {| shape := rest;
                 data := take (size_of rest) (drop (i * size_of rest) (data a)) |}
      else Raise IndexError
  end.

(** [a.shape[i]] *)
Definition shape_at (a : ndarray) (i : nat) : result nat :=
  match shape a !! i with
  | Some n => Ok n
  | None => Raise IndexError
  end.

(** [x[mask]] for a boolean mask of the shape of [x]. *)
Fixpoint select (mask : list bool) (x : list Q) : list Q :=
  match mask, x with
  | b :: mask', v :: x' => if b then v :: select mask' x' else select mask' x'
  | _, _ => []
  end.

Definition qmax (a b : Q) : Q := if Qle_bool b a then a else b.
Definition qmin (a b : Q) : Q := if Qle_bool a b then a else b.

(** The builtins [max(l)] and [min(l)] on the elements of a flat array. *)
Definition py_max (l : list Q) : result Q :=
  match l with
  | [] => Raise ValueError
  | x :: xs => Ok (foldl qmax x xs)
  end.

Definition py_min (l : list Q) : result Q :=
  match l with
  | [] => Raise ValueError
  | x :: xs => Ok (foldl qmin x xs)
  end.

(** ** class CampbellResults *)

(** One call of [ax.scatter] / [camp.scatter]: both receive the same data. *)
Record scatter := mk_scatter {
  marker : string;
  legend : string;
  sc_x : list Q;
  sc_y : list Q;
  sc_color : list Q
}.

Record campbell_figure := mk_campbell_figure {
  scatters : list scatter;
  rotor_speed : list Q;
  vmin : Q;
  vmax : Q
}.

(** The local variable [wn]: the flag passed by the caller, or the array
    that line 96 rebinds it to. *)
Inductive wn_local :=
| WnFlag (b : bool)
| WnArray (a : ndarray).

(** [wn is True] *)
Definition is_True (wn : wn_local) : bool :=
  match wn with
  | WnFlag true => true
  | _ => false
  end.

(** [wn[:, i]] *)
Definition wn_column (wn : wn_local) (i : nat) : result ndarray :=
  match wn with
  | WnArray a => column a i
  | WnFlag _ => Raise TypeError
  end.

Definition whirl_marks : list (string * Q * string) :=
  [("^", 0%Q, "Foward"); ("o", (1 # 2)%Q, "Mixed"); ("v", 1%Q, "Backward")].

(** The body of the loop over [i in range(num_frequencies)]; [None] is
    [continue]. *)
Definition campbell_series (wd log_dec whirl speed_range : ndarray)
    (wn : wn_local) (mark : string) (whirl_dir : Q) (legend : string)
    (i : nat) : result (option scatter) :=
  w_i <- (if is_True wn then wn_column wn i else column wd i) ;;
  whirl_i <- column whirl i ;;
  log_dec_i <- column log_dec i ;;
  speed_range_i <- column speed_range i ;;
  let whirl_mask := (λ w, Qeq_bool w whirl_dir) <$> data whirl_i in
  n <- shape_at whirl_i 0 ;;
  if decide (n = 0)%nat
  then Ok None
  else Ok (Some {| marker := mark; legend := legend;
                   sc_x := select whirl_mask (data speed_range_i);
                   sc_y := select whirl_mask (data w_i);
                   sc_color := select whirl_mask (data log_dec_i) |}).

(** [CampbellResults.plot(self, harmonics, wn, ...)] *)
Definition CampbellResults_plot (self : instance) (wn : bool)
    : result campbell_figure :=
  wd <- index_last_axis (payload self) 0 ;;
  wn <- (if wn
         then a <- index_last_axis (payload self) 4 ;; Ok (WnArray a)
         else Ok (WnFlag wn)) ;;
  log_dec <- index_last_axis (payload self) 1 ;;
  whirl <- index_last_axis (payload self) 2 ;;
  speed_range <- index_last_axis (payload self) 3 ;;
  let log_dec_map := data log_dec in
  lo <- py_min log_dec_map ;;
  hi <- py_max log_dec_map ;;
  calls <- mapM (λ '(mark, whirl_dir, legend),
             num_frequencies <- shape_at wd 1 ;;
             mapM (campbell_series wd log_dec whirl speed_range wn
                     mark whirl_dir legend)
                  (seq 0 num_frequencies))
           whirl_marks ;;
  let drawn := omap id (concat calls) in
  line <- column speed_range 0 ;;
  (* [color_mapper] and [im] are bound by the first scatter call only *)
  match drawn with
  | [] => Raise UnboundLocalError
  | _ => Ok {| scatters := drawn; rotor_speed := data line;
               vmin := lo; vmax := hi |}
  end.

(** ** class FrequencyResponseResults and class ForcedResponseResults *)

Record magnitude_figure := mk_magnitude_figure {
  line_x : list Q;
  line_y : list Q;
  xlim : Q * Q;
  ylabel : string;        (* matplotlib: [ax.set_ylabel] *)
  y_axis_label : string   (* bokeh: [figure(y_axis_label=...)] *)
}.

Definition as_ndarray (v : pyval) : result ndarray :=
  match v with
  | PyArray a => Ok a
  | _ => Raise TypeError
  end.

(** [ax.plot(x, y)]: matplotlib rejects operands whose first dimensions
    differ. *)
Definition ax_plot (x y : ndarray) : result (list Q * list Q) :=
  if decide (head (shape x) = head (shape y))
  then Ok (data x, data y)
  else Raise ValueError.

(** [max(frequency_range)] on a one-dimensional array. *)
Definition max_1d (a : ndarray) : result Q :=
  match shape a with
  | [] => Raise TypeError
  | [_] => py_max (data a)
  | _ => Raise ValueError
  end.

(** [FrequencyResponseResults.plot_magnitude(self, inp, out, ax, units)] *)
Definition FrequencyResponseResults_plot_magnitude (self : instance)
    (inp out : nat) (units : string) : result magnitude_figure :=
  frequency_range <- getattr self "frequency_range" ;;
  mag <- getattr self "magnitude" ;;
  frequency_range <- as_ndarray frequency_range ;;
  mag <- as_ndarray mag ;;
  row <- getitem mag inp ;;
  y <- getitem row out ;;
  _ <- shape_at y 0 ;;
  xy <- ax_plot frequency_range y ;;
  hi <- max_1d frequency_range ;;
  let labels :=
    if decide (units = "m")
    then ("Amplitude $(m)$", "Amplitude (m)")
    else if decide (units = "mic-pk-pk")
    then ("Amplitude $(\mu pk-pk)$", "Amplitude (\mu pk-pk)")
    else ("Amplitude $(dB)$", "Amplitude (dB") in
  Ok {| line_x := xy.1; line_y := xy.2; xlim := (0%Q, hi);
        ylabel := labels.1; y_axis_label := labels.2 |}.

(** A local variable that some branches leave unbound. *)
Definition read_local {A} (x : option A) : result A :=
  match x with
  | Some a => Ok a
  | None => Raise UnboundLocalError
  end.

(** [2 * mag * 1e6] *)
Definition to_mic_pk_pk (mag : ndarray) : ndarray :=
  {| shape := shape mag;
     data := (λ x, (2 * x * 1000000)%Q) <$> data mag |}.

(** [ForcedResponseResults.plot_magnitude(self, dof, ax, units)] *)
Definition ForcedResponseResults_plot_magnitude (self : instance)
    (dof : nat) (units : string) : result magnitude_figure :=
  frequency_range <- getattr self "frequency_range" ;;
  mag <- getattr self "magnitude" ;;
  branch <-
    (if decide (units = "m")
     then Ok (mag, "Amplitude $(m)$", Some "Amplitude (m)")
     else if decide (units = "mic-pk-pk")
     then m <- as_ndarray mag ;;
          Ok (PyArray (to_mic_pk_pk m), "Amplitude $(\mu pk-pk)$",
              Some "Amplitude $(\mu pk-pk)$")
     else Ok (mag, "", None)) ;;
  let '(mag, ylab, y_axis_label) := branch in
  frequency_range <- as_ndarray frequency_range ;;
  mag <- as_ndarray mag ;;
  y <- getitem mag dof ;;
  xy <- ax_plot frequency_range y ;;
  hi <- max_1d frequency_range ;;
  y_axis_label <- read_local y_axis_label ;;
  Ok {| line_x := xy.1; line_y := xy.2; xlim := (0%Q, hi);
        ylabel := ylab; y_axis_label := y_axis_label |}.

(** ** class ModeShapeResults *)

Fixpoint strided_from (step k : nat) (l : list Q) : list Q :=
  match l with
  | [] => []
  | x :: l' =>
      match k with
      | O => x :: strided_from step (step - 1) l'
      | S k' => strided_from step k' l'
      end
  end.

(** [l[start::step]] *)
Definition strided (start step : nat) (l : list Q) : list Q :=
  strided_from step 0 (drop start l).

Fixpoint argmax_from (best : Q) (ibest i : nat) (l : list Q) : nat :=
  match l with
  | [] => ibest
  | x :: l' =>
      if Qle_bool x best
      then argmax_from best ibest (S i) l'
      else argmax_from x i (S i) l'
  end.

(** [np.argmax(l)]: the first position of the largest element. *)
Definition argmax (l : list Q) : nat :=
  match l with
  | [] => 0%nat
  | x :: l' => argmax_from x 0 1 l'
  end.

(** The buffer of a two-dimensional array after [col] has been written
    through the view [a[:, i]]. *)
Definition set_column (a : ndarray) (i : nat) (col : list Q) : ndarray :=
  match shape a with
  | [_; c] =>
      {| shape := shape a;
         data := imap (λ idx x, if decide (idx `mod` c = i)%nat
                                then nth (idx `div` c) col x else x)
                      (data a) |}
  | _ => a
  end.

(** The normalised components that the method goes on to draw. *)
Record mode_orbits := mk_mode_orbits {
  modex : list Q;
  modey : list Q
}.

(** [ModeShapeResults.plot(self, mode, ...)], lines 673 to 690: the
    statements that read and write [self].  [evec0] is a view of [self],
    so the in-place division writes to the buffer of [self].  The
    statements after line 690 draw from [modex], [modey] and the
    attributes and assign to local arrays only.  A zero divisor makes numpy
    produce non-finite values, which have no counterpart here. *)
Definition ModeShapeResults_plot (self : instance) (mode : nat)
    : result (instance * mode_orbits) :=
  evec0 <- column (payload self) mode ;;
  _ <- getattr self "nodes" ;;
  _ <- getattr self "nodes_pos" ;;
  _ <- getattr self "kappa_modes" ;;
  _ <- getattr self "elements_length" ;;
  match shape evec0 with
  | [_] =>
      let mx := strided 0 4 (data evec0) in
      let my := strided 1 4 (data evec0) in
      xmax <- py_max (Qabs <$> mx) ;;
      let ixmax := argmax (Qabs <$> mx) in
      ymax <- py_max (Qabs <$> my) ;;
      let iymax := argmax (Qabs <$> my) in
      let d := if Qle_bool ymax ((2 # 5) * xmax)
               then nth ixmax mx 0%Q
               else nth iymax my 0%Q in
      let evec0' := (λ x, (x / d)%Q) <$> data evec0 in
      Ok ({| ob_type := ob_type self;
             payload := set_column (payload self) mode evec0';
             inst_dict := inst_dict self |},
          {| modex := strided 0 4 evec0'; modey := strided 1 4 evec0' |})
  | _ => Raise ValueError
  end.

(** Element-wise equality of payloads, as [np.array_equal]. *)
Definition array_equal (a b : ndarray) : bool :=
  bool_decide (shape a = shape b)
  && bool_decide (length (data a) = length (data b))
  && forallb (λ '(x, y), Qeq_bool x y) (zip (data a) (data b)).

(** The attributes an object exposes beside the internal registry. *)
Definition exposed (o : instance) : gmap string pyval :=
  delete registry (inst_dict o).

(** A value that offers the mapping interface [items()]. *)
Definition is_mapping (v : pyval) : Prop := ∃ d, v = PyDict d.

(** [Y] is obtained from [X] by a copy, a slice or an arithmetic operation
    that keeps the class. *)
Definition derives (X Y : instance) : Prop :=
  ndarray_copy X = Ok Y
  ∨ (∃ start stop, ndarray_getslice X start stop = Ok Y)
  ∨ (∃ c, ndarray_add_scalar X c = Ok Y)
  ∨ (∃ p, ndarray_derive X p = Ok Y).

(** A pickle cut after its first [n] opcodes. *)
Definition truncated (n : nat) (ops : list pickle_op) : list pickle_op :=
  take n ops.

(** The pickle of an array of class [cls] with the given shape, buffer and
    attribute dictionary. *)
Definition pickle_of (cls : pyclass) (dims : list nat) (raw : list Q)
    (d : gmap string pyval) : list pickle_op :=
  [REDUCE cls;
   STATE [PyInt 1; PyTuple ((λ n, PyInt (Z.of_nat n)) <$> dims);
          PyStr "<f8"; PyBool false; PyBytes raw; PyDict d];
   BUILD; STOP].

(** Saving and restoring [Results(P, A)] gives back the payload, the
    attributes and the registry. *)
Definition roundtrip_ok (cls : pyclass) (P : ndarray)
    (A : gmap string pyval) : Prop :=
  ∃ X r X',
    Results_new cls P (PyDict A) = Ok X
    ∧ pickle_dumps X = Ok r
    ∧ pickle_loads r = Ok X'
    ∧ payload X' = P
    ∧ exposed X' = delete registry A
    ∧ inst_dict X' !! registry = Some (PyDict A).

(** Every pickled form other than the one written for [X] is refused. *)
Definition detects_corruption (X : instance) : Prop :=
  ∀ r r', pickle_dumps X = Ok r → r' ≠ r → ∃ e, pickle_loads r' = Raise e.

(** The attributes of a mode shape of a two-node shaft. *)
Definition mode_shape_attributes : gmap string pyval :=
  <[ "nodes" := PyList [PyInt 0; PyInt 1] ]>
  (<[ "nodes_pos" := PyList [PyFloat 0; PyFloat (1 # 4)] ]>
  (<[ "kappa_modes" := PyList [PyList [PyStr "tab:blue"; PyStr "tab:blue"]] ]>
  (<[ "elements_length" := PyList [PyFloat (1 # 4)] ]>
  (<[ "w" := PyFloat 100 ]>
  (<[ "wd" := PyList [PyFloat 50] ]>
  (<[ "log_dec" := PyList [PyFloat (1 # 10)] ]> ∅)))))).

(** ** Further methods and auxiliary notions *)

(** ** [plot_phase], [plot] and [plot_freq_response_grid] *)

(** [FrequencyResponseResults.plot_phase(self, inp, out, ax)]; the record
    of [plot_magnitude] serves for the phase plot as well. *)
Definition FrequencyResponseResults_plot_phase (self : instance)
    (inp out : nat) : result magnitude_figure :=
  frequency_range <- getattr self "frequency_range" ;;
  phase <- getattr self "phase" ;;
  frequency_range <- as_ndarray frequency_range ;;
  phase <- as_ndarray phase ;;
  row <- getitem phase inp ;;
  y <- getitem row out ;;
  _ <- shape_at y 0 ;;
  xy <- ax_plot frequency_range y ;;
  hi <- max_1d frequency_range ;;
  Ok {| line_x := xy.1; line_y := xy.2; xlim := (0%Q, hi);
        ylabel := "Phase"; y_axis_label := "Phase" |}.

(** [ForcedResponseResults.plot_phase(self, dof, ax)] *)
Definition ForcedResponseResults_plot_phase (self : instance) (dof : nat)
    : result magnitude_figure :=
  frequency_range <- getattr self "frequency_range" ;;
  phase <- getattr self "phase" ;;
  frequency_range <- as_ndarray frequency_range ;;
  phase <- as_ndarray phase ;;
  y <- getitem phase dof ;;
  xy <- ax_plot frequency_range y ;;
  hi <- max_1d frequency_range ;;
  Ok {| line_x := xy.1; line_y := xy.2; xlim := (0%Q, hi);
        ylabel := "Phase"; y_axis_label := "Phase" |}.

(** A matplotlib axes, as far as these methods change it. *)
Record axes := mk_axes {
  ax_lines : list (list Q * list Q);
  ax_xlim : option (Q * Q);
  ax_xlabel : string;
  ax_ylabel : string
}.

(** An axes of [plt.subplots]. *)
Definition new_axes : axes :=
  {| ax_lines := []; ax_xlim := None; ax_xlabel := ""; ax_ylabel := "" |}.

(** What a call of [plot_magnitude] or [plot_phase] that returned [fig]
    has done to the axes it was given: [ax.plot], [ax.set_xlim],
    [ax.set_ylabel], [ax.set_xlabel]. *)
Definition draw_on (ax : axes) (fig : magnitude_figure) : axes :=
  {| ax_lines := ax_lines ax ++ [(line_x fig, line_y fig)];
     ax_xlim := Some (xlim fig);
     ax_xlabel := "Frequency (rad/s)";
     ax_ylabel := ylabel fig |}.

(** [ax.set_xlabel(s)] *)
Definition set_xlabel (ax : axes) (s : string) : axes :=
  {| ax_lines := ax_lines ax; ax_xlim := ax_xlim ax;
     ax_xlabel := s; ax_ylabel := ax_ylabel ax |}.

(** What [plot] returns: the two matplotlib axes and the two bokeh
    figures. *)
Record response_plot := mk_response_plot {
  ax0 : axes;
  ax1 : axes;
  bk_ax0 : magnitude_figure;
  bk_ax1 : magnitude_figure
}.

(** [FrequencyResponseResults.plot(self, inp, out, output_html, ax0, ax1)]
    on the given axes (new ones when the caller passes none). *)
Definition FrequencyResponseResults_plot (self : instance) (inp out : nat)
    (a0 a1 : axes) : result response_plot :=
  m <- FrequencyResponseResults_plot_magnitude self inp out "m" ;;
  let a0 := draw_on a0 m in
  p <- FrequencyResponseResults_plot_phase self inp out ;;
  let a1 := draw_on a1 p in
  m <- FrequencyResponseResults_plot_magnitude self inp out "m" ;;
  let a0 := draw_on a0 m in
  p <- FrequencyResponseResults_plot_phase self inp out ;;
  let a1 := draw_on a1 p in
  let a0 := set_xlabel a0 "" in
  Ok {| ax0 := a0; ax1 := a1; bk_ax0 := m; bk_ax1 := p |}.

(** [ForcedResponseResults.plot(self, dof, output_html, ax0, ax1,
    **kwargs)]; [units] is the entry of [kwargs] of that name, if any. *)
Definition ForcedResponseResults_plot (self : instance) (dof : nat)
    (units : option string) (a0 a1 : axes) : result response_plot :=
  m <- ForcedResponseResults_plot_magnitude self dof (default "m" units) ;;
  let a0 := draw_on a0 m in
  (* kwargs.pop("label"); kwargs.pop("units") *)
  p <- ForcedResponseResults_plot_phase self dof ;;
  let a1 := draw_on a1 p in
  let a0 := set_xlabel a0 "" in
  m <- ForcedResponseResults_plot_magnitude self dof "m" ;;
  let a0 := draw_on a0 m in
  p <- ForcedResponseResults_plot_phase self dof ;;
  let a1 := draw_on a1 p in
  Ok {| ax0 := a0; ax1 := a1; bk_ax0 := m; bk_ax1 := p |}.

(** [enumerate(l)] *)
Definition enumerate {A} (l : list A) : list (nat * A) :=
  imap (λ i x, (i, x)) l.

(** [ax[r, c]] and [ax[r]] on the array of axes that
    [plt.subplots(nrows, ncols)] returns: two-dimensional when both
    numbers exceed one, one-dimensional when [ncols] is one. *)
Definition grid_cell (nrows ncols r c : nat) : result (nat * nat) :=
  if decide (r < nrows ∧ c < ncols)%nat then Ok (r, c) else Raise IndexError.

(** [FrequencyResponseResults.plot_freq_response_grid(self, outs, inps)]
    with [ax=None] and no keyword arguments: the cells that were drawn,
    in order. *)
Definition FrequencyResponseResults_plot_freq_response_grid
    (self : instance) (outs inps : list nat)
    : result (list (nat * nat * magnitude_figure)) :=
  let nrows := (length inps * 2)%nat in
  let ncols := length outs in
  if decide (nrows = 0 ∨ ncols = 0)%nat
  then Raise ValueError
  else if decide (1 < length outs)%nat
  then
    cells <- mapM (λ io,
               mapM (λ ji,
                 c0 <- grid_cell nrows ncols (2 * io.1) ji.1 ;;
                 m <- FrequencyResponseResults_plot_magnitude
                        self io.2 ji.2 "m" ;;
                 c1 <- grid_cell nrows ncols (2 * io.1 + 1) ji.1 ;;
                 p <- FrequencyResponseResults_plot_phase self io.2 ji.2 ;;
                 Ok [(c0, m); (c1, p)])
               (enumerate inps))
             (enumerate outs) ;;
    Ok (concat (concat cells))
  else
    cells <- mapM (λ ii,
               out0 <- match outs !! 0%nat with
                       | Some o => Ok o
                       | None => Raise IndexError
                       end ;;
               c0 <- grid_cell nrows 1 (2 * ii.1) 0 ;;
               m <- FrequencyResponseResults_plot_magnitude
                      self out0 ii.2 "m" ;;
               c1 <- grid_cell nrows 1 (2 * ii.1 + 1) 0 ;;
               p <- FrequencyResponseResults_plot_phase self out0 ii.2 ;;
               Ok [(c0, m); (c1, p)])
             (enumerate inps) ;;
    Ok (concat cells).

(** ** class StaticResults *)

(** The loop of [StaticResults.plot] that draws the bending moment
    (lines 1044 to 1061), for [n = len(nodes)]: the values of [i] at
    which a parabola through the nodes [i], [i + 1] and [i + 2] is drawn.
    Each pass advances [i] by 2; [fuel] bounds the number of passes. *)
Fixpoint bm_segments_from (fuel i n : nat) : list nat :=
  match fuel with
  | O => []
  | S fuel' =>
      if decide (n < i + 3)%nat
      then []
      else i :: bm_segments_from fuel' (i + 2) n
  end.

Definition bm_segments (n : nat) : list nat := bm_segments_from n 0 n.

(** ** Notions used in the statements *)

(** What every series of a Campbell plot satisfies. *)
Definition series_ok (mark leg : string) (s : scatter) : Prop :=
  marker s = mark ∧ legend s = leg
  ∧ length (sc_x s) = length (sc_y s)
  ∧ length (sc_x s) = length (sc_color s).

(** The values of [xs] at the steps whose whirl value in [ws] is [dir], in
    the order of the steps. *)
Definition steps_with (dir : Q) (ws xs : list Q) : list Q :=
  snd <$> List.filter (λ p, Qeq_bool (fst p) dir) (zip ws xs).

(** The series [s] holds the speeds, frequencies and log decrements of the
    steps whose whirl value is [dir]. *)
Definition series_of (dir : Q) (whirl_i speed_i wd_i log_dec_i : ndarray)
    (s : scatter) : Prop :=
  sc_x s = steps_with dir (data whirl_i) (data speed_i)
  ∧ sc_y s = steps_with dir (data whirl_i) (data wd_i)
  ∧ sc_color s = steps_with dir (data whirl_i) (data log_dec_i).

(** A whirl value that one of the three series selects. *)
Definition known_whirl (w : Q) : bool :=
  Qeq_bool w 0 || Qeq_bool w (1 # 2) || Qeq_bool w 1.

(** The parts of a successful Campbell plot. *)
Record campbell_parts (self : instance) (fig : campbell_figure)
    (r c : nat) (rest : list nat) (m : nat)
    (wd ld wh sp : ndarray) (wn : wn_local) (s1 s2 s3 : list scatter)
    : Prop := mk_campbell_parts {
  cp_shape : shape (payload self) = r :: c :: rest ++ [m];
  cp_r : (0 < r)%nat;
  cp_c : (0 < c)%nat;
  cp_wd : index_last_axis (payload self) 0 = Ok wd;
  cp_ld : index_last_axis (payload self) 1 = Ok ld;
  cp_whirl : index_last_axis (payload self) 2 = Ok wh;
  cp_sp : index_last_axis (payload self) 3 = Ok sp;
  cp_shapes : shape wd = r :: c :: rest ∧ shape ld = r :: c :: rest
              ∧ shape wh = r :: c :: rest ∧ shape sp = r :: c :: rest;
  cp_wf : wf_ndarray wd ∧ wf_ndarray ld ∧ wf_ndarray wh ∧ wf_ndarray sp;
  cp_forward :
    mapM (campbell_series wd ld wh sp wn "^" 0 "Foward") (seq 0 c)
    = Ok (Some <$> s1);
  cp_mixed :
    mapM (campbell_series wd ld wh sp wn "o" (1 # 2) "Mixed") (seq 0 c)
    = Ok (Some <$> s2);
  cp_backward :
    mapM (campbell_series wd ld wh sp wn "v" 1 "Backward") (seq 0 c)
    = Ok (Some <$> s3);
  cp_lengths : length s1 = c ∧ length s2 = c ∧ length s3 = c;
  cp_series : Forall (series_ok "^" "Foward") s1
              ∧ Forall (series_ok "o" "Mixed") s2
              ∧ Forall (series_ok "v" "Backward") s3;
  cp_scatters : scatters fig = s1 ++ s2 ++ s3
}.

(** The largest absolute value of a list (0 for the empty list). *)
Definition max_abs (l : list Q) : Q :=
  match Qabs <$> l with
  | [] => 0%Q
  | x :: xs => foldl qmax x xs
  end.

(** The divisor that lines 679 to 687 of [ModeShapeResults.plot] choose
    for the mode vector [ev]. *)
Definition mode_divisor (ev : list Q) : Q :=
  let mx := strided 0 4 ev in
  let my := strided 1 4 ev in
  if Qle_bool (max_abs my) ((2 # 5) * max_abs mx)
  then nth (argmax (Qabs <$> mx)) mx 0%Q
  else nth (argmax (Qabs <$> my)) my 0%Q.

(** The x and y displacements of mode [mode], as [plot] reads them. *)
Definition mode_components (self : instance) (mode : nat) : list Q :=
  match column (payload self) mode with
  | Ok ev => strided 0 4 (data ev) ++ strided 1 4 (data ev)
  | Raise _ => []
  end.

(** Of two numbers the one of larger absolute value, the first on a
    tie. *)
Definition pick (a b : Q) : Q :=
  if Qle_bool (Qabs b) (Qabs a) then a else b.

(** The element of largest absolute value, the first one on a tie. *)
Definition dominant (l : list Q) : Q :=
  match l with
  | [] => 0%Q
  | x :: xs => foldl pick x xs
  end.

(** The attributes that [ModeShapeResults.plot] reads before it
    normalises the mode. *)
Definition mode_shape_required : list string :=
  ["nodes"; "nodes_pos"; "kappa_modes"; "elements_length"].

(** ** Example objects *)

(** A frequency response with two inputs, two outputs and two
    frequencies. *)
Definition response_example : instance :=
  {| ob_type := FrequencyResponseResults;
     payload := {| shape := [1%nat]; data := [0%Q] |};
     inst_dict :=
       <[ "frequency_range" :=
            PyArray {| shape := [2%nat]; data := [0%Q; 10%Q] |} ]>
       (<[ "magnitude" :=
             PyArray {| shape := [2%nat; 2%nat; 2%nat];
                        data := [1%Q; 2%Q; 3%Q; 4%Q; 5%Q; 6%Q; 7%Q; 8%Q] |} ]>
       (<[ "phase" :=
             PyArray {| shape := [2%nat; 2%nat; 2%nat];
                        data := [0%Q; 1%Q; 0%Q; 1%Q; 0%Q; 1%Q; 0%Q; 1%Q] |} ]>
        ∅)) |}.

(** A forced response with one degree of freedom and two frequencies. *)
Definition forced_example : instance :=
  {| ob_type := ForcedResponseResults;
     payload := {| shape := [1%nat]; data := [0%Q] |};
     inst_dict :=
       <[ "frequency_range" :=
            PyArray {| shape := [2%nat]; data := [0%Q; 10%Q] |} ]>
       (<[ "magnitude" :=
             PyArray {| shape := [1%nat; 2%nat]; data := [3%Q; 4%Q] |} ]>
       (<[ "phase" :=
             PyArray {| shape := [1%nat; 2%nat]; data := [0%Q; 1%Q] |} ]>
        ∅)) |}.

(** The mode shape of a two-node shaft with two modes. *)
Definition mode_shape_example : instance :=
  {| ob_type := ModeShapeResults;
     payload := {| shape := [8%nat; 2%nat];
                   data := [1%Q; 5%Q; 0%Q; 6%Q; 0%Q; 7%Q; 0%Q; 8%Q;
                            2%Q; 9%Q; 0%Q; 1%Q; 0%Q; 2%Q; 0%Q; 3%Q] |};
     inst_dict := <[ registry := PyDict mode_shape_attributes ]>
                    mode_shape_attributes |}.

(** * Properties *)

Section setattr_each.
Variable f : string → pyval → pyval.

Lemma setattr_each_spec (d : gmap string pyval) (o : instance) :
  ob_type (setattr_each f d o) = ob_type o
  ∧ payload (setattr_each f d o) = payload o
  ∧ ∀ k, inst_dict (setattr_each f d o) !! k
         = match d !! k with
           | Some v => Some (f k v)
           | None => inst_dict o !! k
           end.
Proof.
  unfold setattr_each.
  apply (map_fold_weak_ind (λ r (m : gmap string pyval),
    ob_type r = ob_type o ∧ payload r = payload o
    ∧ ∀ k, inst_dict r !! k
           = match m !! k with
             | Some v => Some (f k v)
             | None => inst_dict o !! k
             end)).
  - split; [done | split; [done |]].
    intros k. by rewrite lookup_empty.
  - intros i x m r Hi (Ht & Hp & Hd). split; [done | split; [done |]].
    intros k. cbn. destruct (decide (i = k)) as [->|Hne].
    + by rewrite !lookup_insert_eq.
    + rewrite !lookup_insert_ne by done. apply Hd.
Qed.
End setattr_each.

Lemma setattr_each_id (d : gmap string pyval) (o : instance) :
  inst_dict o = ∅ →
  setattr_each (λ _ v, v) d o
  = {| ob_type := ob_type o; payload := payload o; inst_dict := d |}.
Proof.
  intros He.
  destruct (setattr_each_spec (λ _ v, v) d o) as (Ht & Hp & Hd).
  destruct (setattr_each (λ _ v, v) d o) as [t p m]; cbn in *.
  subst t p. f_equal. apply map_eq. intros k. rewrite Hd, He, lookup_empty.
  by destruct (d !! k).
Qed.

Lemma view_asarray (cls : pyclass) (P : ndarray) :
  view (asarray P) cls = Ok {| ob_type := cls; payload := P; inst_dict := ∅ |}.
Proof. reflexivity. Qed.

(** The object built by [Results(P, A)]. *)
Lemma Results_new_dict (cls : pyclass) (P : ndarray) (A : gmap string pyval) :
  Results_new cls P (PyDict A)
  = Ok {| ob_type := cls; payload := P;
          inst_dict := <[registry := PyDict A]> A |}.
Proof.
  unfold Results_new. rewrite view_asarray. cbn.
  by rewrite setattr_each_id.
Qed.

(** Finalizing from a source that carries the registry [A]: every name of
    [A] is installed with the source's current value, or with the value
    recorded in [A] when the source lacks the attribute. *)
Lemma finalize_from_registry (self obj : instance) (A : gmap string pyval) :
  inst_dict obj !! registry = Some (PyDict A) →
  Results_array_finalize self (Some obj)
  = Ok (setattr_each (λ k v, getattr_default obj k v) A self).
Proof.
  intros Hreg. unfold Results_array_finalize, getattr. by rewrite Hreg.
Qed.

Lemma finalize_without_registry (self obj : instance) :
  inst_dict obj !! registry = None →
  Results_array_finalize self (Some obj) = Ok self.
Proof.
  intros Hreg. unfold Results_array_finalize, getattr. by rewrite Hreg.
Qed.

Lemma derive_lookup (X : instance) (A : gmap string pyval) (p : ndarray) :
  inst_dict X !! registry = Some (PyDict A) →
  ∃ Y, ndarray_derive X p = Ok Y
       ∧ ob_type Y = ob_type X ∧ payload Y = p
       ∧ ∀ k, inst_dict Y !! k
              = match A !! k with
                | Some v => Some (getattr_default X k v)
                | None => None
                end.
Proof.
  intros Hreg. unfold ndarray_derive.
  rewrite (finalize_from_registry _ _ A Hreg).
  eexists; split; [done |].
  destruct (setattr_each_spec (λ k v, getattr_default X k v) A
              {| ob_type := ob_type X; payload := p; inst_dict := ∅ |})
    as (Ht & Hp & Hd).
  split; [done | split; [done |]].
  intros k. rewrite Hd. cbn. by rewrite lookup_empty.
Qed.

Lemma derives_derive (X Y : instance) :
  derives X Y → ∃ p, ndarray_derive X p = Ok Y.
Proof.
  intros [H | [(start & stop & H) | [(c & H) | H]]]; [| | | done].
  - by eexists.
  - unfold ndarray_getslice in H.
    destruct (shape (payload X)); [done | by eexists].
  - by eexists.
Qed.

(** C3: constructing a [Results] with an attributes argument that is
    not a mapping fails, whatever the payload: [new_attributes.items()]
    raises [AttributeError] out of [__new__].  In particular this is so for
    [None] (the default), for lists and tuples, and for numbers, booleans
    and strings. *)
Theorem Results_new_rejects_non_mapping
    (cls : pyclass) (P : ndarray) (v : pyval) :
  ¬ is_mapping v →
  Results_new cls P v = Raise AttributeError
  ∧ Results_new cls P PyNone = Raise AttributeError
  ∧ (∀ l, Results_new cls P (PyList l) = Raise AttributeError)
  ∧ (∀ l, Results_new cls P (PyTuple l) = Raise AttributeError)
  ∧ (∀ z, Results_new cls P (PyInt z) = Raise AttributeError)
  ∧ (∀ q, Results_new cls P (PyFloat q) = Raise AttributeError)
  ∧ (∀ b, Results_new cls P (PyBool b) = Raise AttributeError)
  ∧ (∀ s, Results_new cls P (PyStr s) = Raise AttributeError).
Proof.
  intros Hv. unfold Results_new. rewrite view_asarray.
  split; [| by repeat split].
  destruct v; try reflexivity. exfalso. apply Hv. by eexists.
Qed.

Lemma Results_new_rejects_non_mapping_witness :
  ¬ is_mapping (PyList [PyStr "speed"; PyInt 100])
  ∧ Results_new Results {| shape := [2%nat]; data := [1%Q; 2%Q] |}
      (PyList [PyStr "speed"; PyInt 100]) = Raise AttributeError.
Proof.
  assert (Hv : ¬ is_mapping (PyList [PyStr "speed"; PyInt 100])).
  { intros [d Hd]. discriminate Hd. }
  split; [exact Hv |].
  exact (proj1 (Results_new_rejects_non_mapping Results
           {| shape := [2%nat]; data := [1%Q; 2%Q] |} _ Hv)).
Defined.

(** C6: when the source of a derivation does not carry the registry
    [_new_attributes], [__array_finalize__] returns without an error and
    leaves the new object as it was: a view, a copy or a slice of such a
    source is created with no attribute installed. *)
Theorem finalize_skips_without_registry
    (self obj : instance) (cls : pyclass) (p : ndarray) :
  inst_dict obj !! registry = None →
  Results_array_finalize self (Some obj) = Ok self
  ∧ view obj cls
    = Ok {| ob_type := cls; payload := payload obj; inst_dict := ∅ |}
  ∧ ndarray_derive obj p
    = Ok {| ob_type := ob_type obj; payload := p; inst_dict := ∅ |}.
Proof.
  intros Hreg. unfold view, ndarray_derive.
  by rewrite !finalize_without_registry.
Qed.

Lemma finalize_skips_without_registry_witness :
  let obj := asarray {| shape := [2%nat]; data := [3%Q; 4%Q] |} in
  let self := {| ob_type := Results;
                 payload := {| shape := [1%nat]; data := [3%Q] |};
                 inst_dict := ∅ |} in
  inst_dict obj !! registry = None
  ∧ Results_array_finalize self (Some obj) = Ok self
  ∧ view obj CampbellResults
    = Ok {| ob_type := CampbellResults; payload := payload obj;
            inst_dict := ∅ |}.
Proof.
  intros obj self.
  assert (Hreg : inst_dict obj !! registry = None) by reflexivity.
  split; [exact Hreg |].
  destruct (finalize_skips_without_registry self obj CampbellResults
              (payload obj) Hreg) as (H1 & H2 & _).
  split; [exact H1 | exact H2].
Defined.

(** C8: on an object whose class is [Results] itself, [self.plot]
    resolves to [Results.plot], and that method raises
    [NotImplementedError] for every object and all positional and keyword
    arguments. *)
Theorem Results_plot_not_implemented
    (A : Type) (self : instance) (args : list pyval)
    (kwargs : gmap string pyval) :
  ob_type self = Results →
  plot_owner (ob_type self) = Ok Results
  ∧ @Results_plot A self args kwargs = Raise NotImplementedError.
Proof.
  intros Hcls. split.
  - by rewrite Hcls.
  - reflexivity.
Qed.

Lemma Results_plot_not_implemented_witness :
  ∃ self,
    Results_new Results {| shape := [2%nat]; data := [1%Q; 2%Q] |}
      (PyDict ∅) = Ok self
    ∧ ob_type self = Results
    ∧ @Results_plot unit self [PyInt 0] {[ "output_html" := PyBool true ]}
      = Raise NotImplementedError.
Proof.
  set (self := {| ob_type := Results;
                  payload := {| shape := [2%nat]; data := [1%Q; 2%Q] |};
                  inst_dict := <[registry := PyDict ∅]> ∅ |}).
  assert (Hcls : ob_type self = Results) by reflexivity.
  exists self. split; [apply Results_new_dict |].
  split; [exact Hcls |].
  exact (proj2 (Results_plot_not_implemented unit self [PyInt 0]
                  {[ "output_html" := PyBool true ]} Hcls)).
Defined.

(** C2: an object [X] built by [Results(P, A)] and any copy, slice or
    arithmetic result [Y] derived from it expose the same attribute names
    with the same values; [Y] keeps the class of [X].  At least the copy
    exists.  The attributes exposed are the entries of the instance
    dictionary other than the internal registry. *)
Theorem derived_exposes_same_attributes
    (cls : pyclass) (P : ndarray) (A : gmap string pyval) (X : instance) :
  Results_new cls P (PyDict A) = Ok X →
  (∃ Y, ndarray_copy X = Ok Y)
  ∧ ∀ Y, derives X Y → ob_type Y = ob_type X ∧ exposed Y = exposed X.
Proof.
  rewrite Results_new_dict. intros [= <-].
  set (X := {| ob_type := cls; payload := P;
               inst_dict := <[registry := PyDict A]> A |}).
  assert (Hreg : inst_dict X !! registry = Some (PyDict A))
    by apply lookup_insert_eq.
  split.
  - destruct (derive_lookup X A (payload X) Hreg) as (Y & HY & _). by exists Y.
  - intros Y [p Hp]%derives_derive.
    destruct (derive_lookup X A p Hreg) as (Y' & HY' & Ht & _ & Hd).
    rewrite HY' in Hp. injection Hp as ->. split; [done |].
    apply map_eq. intros k. unfold exposed.
    destruct (decide (k = registry)) as [-> | Hne].
    + by rewrite !lookup_delete_eq.
    + rewrite !lookup_delete_ne by done. rewrite Hd.
      unfold getattr_default. subst X. cbn.
      rewrite lookup_insert_ne by done. by destruct (A !! k).
Qed.

Lemma derived_exposes_same_attributes_witness :
  ∃ X Y,
    Results_new FrequencyResponseResults
      {| shape := [3%nat]; data := [1%Q; 2%Q; 3%Q] |}
      (PyDict {[ "frequency_range" := PyList [PyInt 0; PyInt 10] ]}) = Ok X
    ∧ ndarray_getslice X 0 2 = Ok Y
    ∧ exposed Y = exposed X.
Proof.
  eexists _, _. split; [apply Results_new_dict |].
  split; [reflexivity |].
  refine (proj2 (proj2 (derived_exposes_same_attributes _ _ _ _
            (Results_new_dict _ _ _)) _ _)).
  right; left. by exists 0%nat, 2%nat.
Defined.

(** C9: the registry is not handed on.  For [X] built by [Results(P, A)]
    with no attribute named [_new_attributes], a derived object [Y]
    receives each attribute of [A] with the value it has on [X] but not the
    registry, so an object derived from [Y] carries no attribute at all and
    [Y] cannot be pickled. *)
Theorem registry_not_propagated
    (cls : pyclass) (P p1 p2 : ndarray) (A : gmap string pyval)
    (X : instance) :
  A !! registry = None →
  Results_new cls P (PyDict A) = Ok X →
  ∃ Y, ndarray_derive X p1 = Ok Y
       ∧ inst_dict Y = A
       ∧ inst_dict Y !! registry = None
       ∧ ndarray_derive Y p2
         = Ok {| ob_type := cls; payload := p2; inst_dict := ∅ |}
       ∧ Results_reduce Y = Raise AttributeError.
Proof.
  intros HA. rewrite Results_new_dict. intros [= <-].
  set (X := {| ob_type := cls; payload := P;
               inst_dict := <[registry := PyDict A]> A |}).
  assert (Hreg : inst_dict X !! registry = Some (PyDict A))
    by apply lookup_insert_eq.
  destruct (derive_lookup X A p1 Hreg) as (Y & HY & Ht & Hp & Hd).
  assert (HYA : inst_dict Y = A).
  { apply map_eq. intros k. rewrite Hd. unfold getattr_default. subst X. cbn.
    destruct (A !! k) eqn:Hk; [| done].
    rewrite lookup_insert_ne by congruence. by rewrite Hk. }
  exists Y. split; [done | split; [done |]].
  assert (HYr : inst_dict Y !! registry = None) by by rewrite HYA.
  split; [done | split].
  - unfold ndarray_derive. rewrite finalize_without_registry by done.
    by rewrite Ht.
  - unfold Results_reduce, getattr. by rewrite HYr.
Qed.

Lemma registry_not_propagated_witness :
  let P := {| shape := [3%nat]; data := [1%Q; 2%Q; 3%Q] |} in
  let p1 := {| shape := [2%nat]; data := [1%Q; 2%Q] |} in
  let p2 := {| shape := [1%nat]; data := [1%Q] |} in
  let A : gmap string pyval := {[ "a" := PyInt 1 ]} in
  A !! registry = None
  ∧ ∃ X, Results_new Results P (PyDict A) = Ok X
    ∧ ∃ Y, ndarray_derive X p1 = Ok Y
       ∧ inst_dict Y = A
       ∧ inst_dict Y !! registry = None
       ∧ ndarray_derive Y p2
         = Ok {| ob_type := Results; payload := p2; inst_dict := ∅ |}
       ∧ Results_reduce Y = Raise AttributeError.
Proof.
  intros P p1 p2 A.
  assert (HA : A !! registry = None) by (vm_compute; reflexivity).
  split; [exact HA |].
  eexists. split; [apply Results_new_dict |].
  exact (registry_not_propagated Results P p1 p2 A _ HA
           (Results_new_dict Results P A)).
Defined.

(** *** Pickling *)

Lemma mapM_as_dim (dims : list nat) :
  mapM as_dim ((λ n, PyInt (Z.of_nat n)) <$> dims) = Ok dims.
Proof.
  induction dims as [| n dims IH]; [done |].
  cbn. rewrite IH. cbn.
  destruct (decide (0 ≤ Z.of_nat n)%Z) as [_ | Hn]; [| lia].
  by rewrite Nat2Z.id.
Qed.

Lemma Results_reduce_ok (X : instance) (reg : pyval) :
  inst_dict X !! registry = Some reg →
  Results_reduce X
  = Ok {| r_cls := ob_type X;
          r_state := r_state (ndarray_reduce X) ++ [reg] |}.
Proof. intros Hreg. unfold Results_reduce, getattr. by rewrite Hreg. Qed.

(** Restoring the state written for payload [P] with registry [A]. *)
Lemma pickle_loads_state (cls : pyclass) (P : ndarray)
    (A : gmap string pyval) (o : instance) :
  wf_ndarray P →
  ob_type o = cls → payload o = P →
  pickle_loads {| r_cls := cls;
                  r_state := r_state (ndarray_reduce o) ++ [PyDict A] |}
  = Ok {| ob_type := cls; payload := P;
          inst_dict := A ∪ {[ registry := PyDict A ]} |}.
Proof.
  intros Hwf Ht Hp. unfold pickle_loads, reconstruct. cbn.
  unfold Results_setstate, index_last, getattr. cbn.
  rewrite lookup_insert_eq. cbn.
  rewrite Hp, mapM_as_dim. cbn.
  destruct (decide (length (data P) = size_of (shape P))) as [_ | Hn]; [| done].
  destruct (setattr_each_spec (λ _ v, v) A
    (setattr {| ob_type := cls;
                payload := {| shape := [0%nat]; data := [] |};
                inst_dict := ∅ |} registry (PyDict A))) as (Hty & _ & Hd).
  f_equal. destruct P as [sh dt]. cbn. f_equal; [done |].
  apply map_eq. intros k. rewrite Hd. cbn.
  rewrite lookup_union. unfold singletonM, map_singleton, registry.
  destruct (A !! k); by destruct (<[_ := _]> _ !! k).
Qed.

(** C1 (amended): for a well-formed payload [P] and attributes [A] whose
    names are stored in the instance dictionary (no data attribute of
    [ndarray], no special name) and do not include [_new_attributes],
    saving [Results(P, A)] and loading it again yields the payload [P],
    the attributes [A] and the registry [A]; the restored object equals
    the saved one. *)
Theorem pickle_roundtrip
    (cls : pyclass) (P : ndarray) (A : gmap string pyval) :
  wf_ndarray P →
  plain_names A →
  A !! registry = None →
  roundtrip_ok cls P A
  ∧ ∀ X r X',
      Results_new cls P (PyDict A) = Ok X →
      pickle_dumps X = Ok r →
      pickle_loads r = Ok X' →
      X' = X ∧ array_equal (payload X') P = true.
Proof.
  intros Hwf _ HA.
  set (X := {| ob_type := cls; payload := P;
               inst_dict := <[registry := PyDict A]> A |}).
  assert (Hdump : pickle_dumps X
                  = Ok {| r_cls := cls;
                          r_state := r_state (ndarray_reduce X) ++ [PyDict A] |}).
  { apply (Results_reduce_ok X). apply lookup_insert_eq. }
  assert (Hload : pickle_loads
                    {| r_cls := cls;
                       r_state := r_state (ndarray_reduce X) ++ [PyDict A] |}
                  = Ok X).
  { rewrite (pickle_loads_state cls P A X) by done.
    unfold X. by rewrite (insert_union_singleton_r A registry). }
  split.
  - exists X, {| r_cls := cls;
                 r_state := r_state (ndarray_reduce X) ++ [PyDict A] |}, X.
    split; [apply Results_new_dict |].
    split; [done | split; [done | split; [done |]]].
    unfold exposed. cbn. split; [apply delete_insert_eq | apply lookup_insert_eq].
  - intros X1 r X' HX1 Hr HX'.
    rewrite Results_new_dict in HX1. fold X in HX1.
    assert (X1 = X) as -> by congruence.
    assert (r = {| r_cls := cls;
                   r_state := r_state (ndarray_reduce X) ++ [PyDict A] |})
      as -> by congruence.
    assert (X' = X) as -> by congruence.
    split; [done |]. unfold array_equal. cbn.
    rewrite !bool_decide_eq_true_2 by done. cbn.
    clear. induction (data P) as [| x l IH]; [done |].
    cbn. rewrite IH, andb_true_r. apply Qeq_bool_iff. reflexivity.
Qed.

Lemma pickle_roundtrip_witness :
  let P := {| shape := [2%nat; 2%nat]; data := [1%Q; 2%Q; 3%Q; 4%Q] |} in
  let A : gmap string pyval :=
    {[ "nodes" := PyList [PyInt 0; PyInt 1] ]} in
  wf_ndarray P ∧ plain_names A ∧ A !! registry = None
  ∧ roundtrip_ok ModeShapeResults P A.
Proof.
  intros P A.
  assert (Hwf : wf_ndarray P) by reflexivity.
  assert (Hpl : plain_names A) by (apply map_Forall_singleton; reflexivity).
  assert (HA : A !! registry = None) by (vm_compute; reflexivity).
  split; [exact Hwf | split; [exact Hpl | split; [exact HA |]]].
  exact (proj1 (pickle_roundtrip ModeShapeResults P A Hwf Hpl HA)).
Defined.

(** C1 (counterexample): with the attribute dictionary
    [{"_new_attributes": 5}] the object built by [__new__] has the
    dictionary as its registry, while the object restored by
    [__setstate__] has registry [5]: the loop over the items runs after the
    registry has been set and overwrites it. *)
Lemma roundtrip_reserved_name_counterexample :
  let P := {| shape := [2%nat]; data := [1%Q; 2%Q] |} in
  let A : gmap string pyval := {[ registry := PyInt 5 ]} in
  wf_ndarray P
  ∧ (∃ X r X',
       Results_new Results P (PyDict A) = Ok X
       ∧ pickle_dumps X = Ok r
       ∧ pickle_loads r = Ok X'
       ∧ inst_dict X !! registry = Some (PyDict A)
       ∧ inst_dict X' !! registry = Some (PyInt 5))
  ∧ ¬ roundtrip_ok Results P A.
Proof.
  intros P A.
  set (X := {| ob_type := Results; payload := P;
               inst_dict := <[registry := PyDict A]> A |}).
  set (r := {| r_cls := Results;
               r_state := r_state (ndarray_reduce X) ++ [PyDict A] |}).
  assert (Hwf : wf_ndarray P) by reflexivity.
  assert (Hdump : pickle_dumps X = Ok r).
  { apply (Results_reduce_ok X). apply lookup_insert_eq. }
  assert (Hload : pickle_loads r
                  = Ok {| ob_type := Results; payload := P;
                          inst_dict := A ∪ {[ registry := PyDict A ]} |})
    by by apply pickle_loads_state.
  assert (Hreg : (A ∪ {[ registry := PyDict A ]}) !! registry
                 = Some (PyInt 5)).
  { apply lookup_union_Some_l. apply lookup_singleton_eq. }
  split; [done | split].
  - exists X, r, {| ob_type := Results; payload := P;
                    inst_dict := A ∪ {[ registry := PyDict A ]} |}.
    split; [apply Results_new_dict |].
    split; [done | split; [done | split; [apply lookup_insert_eq | done]]].
  - intros (X1 & r1 & X' & HX1 & Hr1 & HX' & _ & _ & Hbad).
    rewrite Results_new_dict in HX1. fold X in HX1.
    assert (X1 = X) as -> by congruence.
    assert (r1 = r) as -> by congruence.
    rewrite Hload in HX'.
    assert (inst_dict X' = A ∪ {[ registry := PyDict A ]}) as Hd
      by (injection HX' as <-; done).
    rewrite Hd, Hreg in Hbad. discriminate Hbad.
Qed.

(** Running a complete pickle is calling the reconstructor and
    [__setstate__]. *)
Lemma pickle_load_complete (cls : pyclass) (state : list pyval) :
  pickle_load [REDUCE cls; STATE state; BUILD; STOP]
  = pickle_loads {| r_cls := cls; r_state := state |}.
Proof.
  unfold pickle_load, pickle_loads. cbn.
  by destruct (Results_setstate _ state).
Qed.

(** A pickle that ends after BUILD: [__setstate__] has run, and the
    unpickler finds no further opcode. *)
Lemma pickle_load_no_stop (cls : pyclass) (state : list pyval) :
  pickle_load [REDUCE cls; STATE state; BUILD]
  = (_ <- pickle_loads {| r_cls := cls; r_state := state |} ;;
     Raise EOFError).
Proof. reflexivity. Qed.

(** C5 (amended): a truncated pickle is refused, a corrupted one need not
    be.  For [X] built by [Results(P, A)] on a well-formed payload and a
    dictionary of plain names, [pickle.dump] writes the reconstructor call, the state, BUILD and
    STOP; loading any proper prefix of it raises [EOFError] or
    [UnpicklingError], because the input ends before STOP.  But every
    pickle of that form whose buffer has the size its shape requires and
    whose dictionary has plain names loads without error, as the array
    with that shape, buffer and dictionary, whatever was saved:
    [__setstate__] compares nothing with the saved object. *)
Theorem pickle_load_truncated_or_corrupted
    (cls : pyclass) (P : ndarray) (A : gmap string pyval)
    (X : instance) (ops : list pickle_op) :
  wf_ndarray P →
  plain_names A →
  Results_new cls P (PyDict A) = Ok X →
  pickle_dump X = Ok ops →
  ops = pickle_of cls (shape P) (data P) A
  ∧ (∀ n, n < length ops →
          ∃ e, pickle_load (truncated n ops) = Raise e
               ∧ (e = EOFError ∨ e = UnpicklingError))
  ∧ (∀ dims raw d,
        length raw = size_of dims →
        plain_names d →
        pickle_load (pickle_of cls dims raw d)
        = Ok {| ob_type := cls;
                payload := {| shape := dims; data := raw |};
                inst_dict := d ∪ {[ registry := PyDict d ]} |}).
Proof.
  intros Hwf _ HX Hops. rewrite Results_new_dict in HX.
  assert (X = {| ob_type := cls; payload := P;
                 inst_dict := <[registry := PyDict A]> A |}) as ->
    by congruence.
  unfold pickle_dump in Hops.
  rewrite (Results_reduce_ok _ (PyDict A)) in Hops by apply lookup_insert_eq.
  cbn in Hops.
  assert (ops = pickle_of cls (shape P) (data P) A) as ->
    by (unfold pickle_of; congruence).
  clear Hops.
  assert (Hload : ∀ dims raw d, length raw = size_of dims →
            pickle_loads
              {| r_cls := cls;
                 r_state := [PyInt 1;
                             PyTuple ((λ n, PyInt (Z.of_nat n)) <$> dims);
                             PyStr "<f8"; PyBool false; PyBytes raw;
                             PyDict d] |}
            = Ok {| ob_type := cls;
                    payload := {| shape := dims; data := raw |};
                    inst_dict := d ∪ {[ registry := PyDict d ]} |}).
  { intros dims raw d Hlen.
    apply (pickle_loads_state cls {| shape := dims; data := raw |} d
             {| ob_type := cls; payload := {| shape := dims; data := raw |};
                inst_dict := ∅ |}); done. }
  split; [done | split].
  - intros n Hn. exists EOFError. split; [| by left].
    unfold truncated, pickle_of. cbn in Hn.
    destruct n as [| [| [| [| n]]]]; [done | done | done | | lia].
    cbn [take]. rewrite pickle_load_no_stop, (Hload _ _ _ Hwf). done.
  - intros dims raw d Hlen _. unfold pickle_of.
    rewrite pickle_load_complete. by apply Hload.
Qed.

Lemma pickle_load_truncated_or_corrupted_witness :
  let P := {| shape := [2%nat; 3%nat];
              data := [1%Q; 2%Q; 3%Q; 4%Q; 5%Q; 6%Q] |} in
  let A : gmap string pyval := {[ "speed" := PyInt 100 ]} in
  let A' : gmap string pyval := {[ "speed" := PyInt 101 ]} in
  wf_ndarray P
  ∧ plain_names A
  ∧ ∃ X ops, Results_new StaticResults P (PyDict A) = Ok X
    ∧ pickle_dump X = Ok ops
    ∧ (∃ e, pickle_load (truncated 3 ops) = Raise e)
    ∧ ∃ X', pickle_load (pickle_of StaticResults [3%nat; 2%nat] (data P) A')
            = Ok X'
            ∧ shape (payload X') = [3%nat; 2%nat]
            ∧ inst_dict X' !! "speed" = Some (PyInt 101).
Proof.
  intros P A A'.
  assert (Hwf : wf_ndarray P) by reflexivity.
  assert (Hpl : plain_names A) by (apply map_Forall_singleton; reflexivity).
  split; [exact Hwf | split; [exact Hpl |]].
  assert (Hdump : ∀ X, X = {| ob_type := StaticResults; payload := P;
                             inst_dict := <[registry := PyDict A]> A |} →
            pickle_dump X = Ok (pickle_of StaticResults (shape P) (data P) A)).
  { intros X ->. unfold pickle_dump.
    rewrite (Results_reduce_ok _ (PyDict A)) by apply lookup_insert_eq.
    reflexivity. }
  eexists _, _. split; [apply Results_new_dict |].
  split; [exact (Hdump _ eq_refl) |].
  destruct (pickle_load_truncated_or_corrupted StaticResults P A _ _ Hwf Hpl
              (Results_new_dict _ _ _) (Hdump _ eq_refl)) as (_ & H1 & H2).
  split.
  - destruct (H1 3%nat) as (e & He & _); [cbn; lia |]. by exists e.
  - eexists. split; [apply H2; [reflexivity |] |].
    + apply map_Forall_singleton. reflexivity.
    + split; [reflexivity |].
      cbn. apply lookup_union_Some_l. apply lookup_singleton_eq.
Defined.

(** C5 (counterexample): a pickle whose content has been altered but
    whose structure is intact is restored without any error.  From the
    pickle of a 2 x 3 array with attribute [speed = 100], the state with
    shape (3, 2) loads as a 3 x 2 array, and the state with [speed = 101]
    loads with that attribute value. *)
Lemma corrupted_pickle_restored_silently :
  let P := {| shape := [2%nat; 3%nat];
              data := [1%Q; 2%Q; 3%Q; 4%Q; 5%Q; 6%Q] |} in
  let P' := {| shape := [3%nat; 2%nat];
               data := [1%Q; 2%Q; 3%Q; 4%Q; 5%Q; 6%Q] |} in
  let A : gmap string pyval := {[ "speed" := PyInt 100 ]} in
  let A' : gmap string pyval := {[ "speed" := PyInt 101 ]} in
  ∃ X r,
    Results_new StaticResults P (PyDict A) = Ok X
    ∧ pickle_dumps X = Ok r
    ∧ (∃ r' X', r' ≠ r ∧ pickle_loads r' = Ok X'
                ∧ shape (payload X') = [3%nat; 2%nat])
    ∧ (∃ r' X', r' ≠ r ∧ pickle_loads r' = Ok X'
                ∧ inst_dict X' !! "speed" = Some (PyInt 101))
    ∧ ¬ detects_corruption X.
Proof.
  intros P P' A A'.
  set (X := {| ob_type := StaticResults; payload := P;
               inst_dict := <[registry := PyDict A]> A |}).
  set (r := {| r_cls := StaticResults;
               r_state := r_state (ndarray_reduce X) ++ [PyDict A] |}).
  set (r1 := {| r_cls := StaticResults;
                r_state := r_state (ndarray_reduce
                  {| ob_type := StaticResults; payload := P';
                     inst_dict := ∅ |}) ++ [PyDict A] |}).
  set (r2 := {| r_cls := StaticResults;
                r_state := r_state (ndarray_reduce X) ++ [PyDict A'] |}).
  assert (Hdump : pickle_dumps X = Ok r).
  { apply (Results_reduce_ok X). apply lookup_insert_eq. }
  assert (Hne1 : r1 ≠ r) by (intros [=]).
  assert (Hload1 : pickle_loads r1
                   = Ok {| ob_type := StaticResults; payload := P';
                           inst_dict := A ∪ {[ registry := PyDict A ]} |})
    by by apply pickle_loads_state.
  assert (Hload2 : pickle_loads r2
                   = Ok {| ob_type := StaticResults; payload := P;
                           inst_dict := A' ∪ {[ registry := PyDict A' ]} |})
    by by apply pickle_loads_state.
  assert (Hne2 : r2 ≠ r) by (intros [=]).
  exists X, r. split; [apply Results_new_dict |]. split; [done |].
  split; [| split].
  - exists r1, {| ob_type := StaticResults; payload := P';
                  inst_dict := A ∪ {[ registry := PyDict A ]} |}.
    split; [exact Hne1 | split; [exact Hload1 | reflexivity]].
  - exists r2, {| ob_type := StaticResults; payload := P;
                  inst_dict := A' ∪ {[ registry := PyDict A' ]} |}.
    split; [exact Hne2 | split; [exact Hload2 |]].
    apply lookup_union_Some_l. apply lookup_singleton_eq.
  - intros Hdet. destruct (Hdet r r1 Hdump Hne1) as [e He].
    rewrite Hload1 in He. discriminate He.
Qed.

(** ** Renderers *)

(** C7: for a Campbell result with two speed steps and one mode whose
    whirl value is 0.0 at both steps, [plot] draws three scatter series:
    the forward series ("^") holds exactly the two (speed, frequency)
    points, coloured by their log decrements, and the mixed ("o") and
    backward ("v") series hold no point.  This is so whatever the
    attributes, the other payload values and the flag [wn]. *)
Theorem campbell_forward_series
    (A : gmap string pyval) (wn : bool)
    (wd0 ld0 sp0 wn0 wd1 ld1 sp1 wn1 : Q) :
  ∃ X fig,
    Results_new CampbellResults
      {| shape := [2%nat; 1%nat; 5%nat];
         data := [wd0; ld0; 0%Q; sp0; wn0; wd1; ld1; 0%Q; sp1; wn1] |}
      (PyDict A) = Ok X
    ∧ CampbellResults_plot X wn = Ok fig
    ∧ scatters fig
      = [ {| marker := "^"; legend := "Foward";
             sc_x := [sp0; sp1]; sc_y := [wd0; wd1];
             sc_color := [ld0; ld1] |};
          {| marker := "o"; legend := "Mixed";
             sc_x := []; sc_y := []; sc_color := [] |};
          {| marker := "v"; legend := "Backward";
             sc_x := []; sc_y := []; sc_color := [] |} ].
Proof.
  eexists _, _. split; [apply Results_new_dict |].
  destruct wn; split; reflexivity.
Qed.

(** Case analysis on the first computation of a sequence. *)
Ltac bind_case :=
  match goal with
  | |- context [bind ?r _] =>
      let E := fresh "E" in destruct r eqn:E; cbn [bind]
  | H : context [bind ?r _] |- _ =>
      let E := fresh "E" in destruct r eqn:E; cbn [bind] in H
  end.



(** C4: [ModeShapeResults.plot] writes to the object it renders.  For
    the mode shape of a two-node shaft with x components 1 and 2, the
    call for mode 0 succeeds and leaves the payload divided by 2: the
    in-place division acts on a view of [self]. *)
Theorem ModeShapeResults_plot_writes_payload :
  let P := {| shape := [8%nat; 1%nat];
              data := [1%Q; 0%Q; 0%Q; 0%Q; 2%Q; 0%Q; 0%Q; 0%Q] |} in
  ∃ X X' orbits,
    Results_new ModeShapeResults P (PyDict mode_shape_attributes) = Ok X
    ∧ ModeShapeResults_plot X 0 = Ok (X', orbits)
    ∧ array_equal (payload X')
        {| shape := [8%nat; 1%nat];
           data := [(1 # 2)%Q; 0%Q; 0%Q; 0%Q; 1%Q; 0%Q; 0%Q; 0%Q] |} = true
    ∧ array_equal (payload X') (payload X) = false
    ∧ inst_dict X' = inst_dict X.
Proof.
  intros P. eexists _, _, _.
  split; [apply Results_new_dict |].
  split; [vm_compute; reflexivity |].
  split; [vm_compute; reflexivity |].
  split; [vm_compute; reflexivity | reflexivity].
Qed.

(** * Further properties of [Results] *)

(** X1: for a dictionary [A] of plain names, [Results(P, A)] succeeds and
    binds the payload and the class; the instance dictionary of the new
    object holds the entries of [A] and, under [_new_attributes], the
    dictionary [A] itself, and nothing else: every entry of [A] is
    readable as an attribute. *)
Theorem Results_new_installs_attributes
    (cls : pyclass) (P : ndarray) (A : gmap string pyval) :
  plain_names A →
  ∃ X, Results_new cls P (PyDict A) = Ok X
       ∧ ob_type X = cls
       ∧ payload X = P
       ∧ inst_dict X = <[registry := PyDict A]> A
       ∧ getattr X registry = Ok (PyDict A)
       ∧ ∀ k v, k ≠ registry → A !! k = Some v → getattr X k = Ok v.
Proof.
  intros _. eexists. split; [apply Results_new_dict |].
  split; [done | split; [done | split; [done |]]]. unfold getattr. cbn. split.
  - by rewrite lookup_insert_eq.
  - intros k v Hk HA. by rewrite lookup_insert_ne, HA by done.
Qed.

Lemma Results_new_installs_attributes_witness :
  let P := {| shape := [2%nat]; data := [1%Q; 2%Q] |} in
  let A : gmap string pyval := {[ "speed" := PyInt 100 ]} in
  plain_names A
  ∧ ∃ X, Results_new CampbellResults P (PyDict A) = Ok X
         ∧ getattr X "speed" = Ok (PyInt 100)
         ∧ getattr X registry = Ok (PyDict A).
Proof.
  intros P A.
  assert (Hpl : plain_names A) by (apply map_Forall_singleton; reflexivity).
  split; [exact Hpl |].
  destruct (Results_new_installs_attributes CampbellResults P A Hpl)
    as (X & HX & _ & _ & _ & Hreg & Hget).
  exists X. split; [exact HX | split; [| exact Hreg]].
  apply Hget; [discriminate | apply lookup_singleton_eq].
Defined.

(** X2: Finalizing from a source whose registry is [A]: the derived object
    has exactly the names of [A]; each carries the value the source has
    now, or the value recorded in [A] when the source has lost the
    attribute.  Attributes of the source that are not named in [A] are not
    handed on. *)
Theorem derive_value_rule
    (obj : instance) (A : gmap string pyval) (p : ndarray) :
  inst_dict obj !! registry = Some (PyDict A) →
  ∃ Y, ndarray_derive obj p = Ok Y
       ∧ payload Y = p
       ∧ (∀ k v, A !! k = Some v →
                 inst_dict Y !! k = Some (default v (inst_dict obj !! k)))
       ∧ (∀ k, A !! k = None → inst_dict Y !! k = None).
Proof.
  intros Hreg.
  destruct (derive_lookup obj A p Hreg) as (Y & HY & _ & Hp & Hd).
  exists Y. split; [done | split; [done | split]].
  - intros k v Hk. by rewrite Hd, Hk.
  - intros k Hk. by rewrite Hd, Hk.
Qed.

Lemma derive_value_rule_witness :
  let A : gmap string pyval := {[ "speed" := PyInt 100 ]} in
  let obj := {| ob_type := Results;
                payload := {| shape := [2%nat]; data := [1%Q; 2%Q] |};
                inst_dict := <[ "note" := PyStr "tmp" ]>
                             (<[ "speed" := PyInt 120 ]>
                             (<[ registry := PyDict A ]> ∅)) |} in
  inst_dict obj !! registry = Some (PyDict A)
  ∧ ∃ Y, ndarray_derive obj {| shape := [1%nat]; data := [1%Q] |} = Ok Y
         ∧ inst_dict Y !! "speed" = Some (PyInt 120)
         ∧ inst_dict Y !! "note" = None.
Proof.
  intros A obj.
  assert (Hreg : inst_dict obj !! registry = Some (PyDict A))
    by (vm_compute; reflexivity).
  split; [exact Hreg |].
  destruct (derive_value_rule obj A {| shape := [1%nat]; data := [1%Q] |} Hreg)
    as (Y & HY & _ & Hin & Hout).
  exists Y. split; [exact HY |]. split.
  - rewrite (Hin "speed" (PyInt 100)) by (vm_compute; reflexivity).
    vm_compute; reflexivity.
  - apply Hout. vm_compute; reflexivity.
Defined.

(** X3: Saving and loading [Results(P, A)] succeeds for every dictionary [A]
    of plain names (also one that uses the name [_new_attributes]) and
    every well-formed payload, and gives back the class, the payload and
    the value of every attribute other than [_new_attributes]. *)
Theorem pickle_roundtrip_attributes
    (cls : pyclass) (P : ndarray) (A : gmap string pyval) :
  wf_ndarray P →
  plain_names A →
  ∃ X r X',
    Results_new cls P (PyDict A) = Ok X
    ∧ pickle_dumps X = Ok r
    ∧ pickle_loads r = Ok X'
    ∧ ob_type X' = cls
    ∧ payload X' = P
    ∧ ∀ k, k ≠ registry → inst_dict X' !! k = A !! k.
Proof.
  intros Hwf _.
  set (X := {| ob_type := cls; payload := P;
               inst_dict := <[registry := PyDict A]> A |}).
  exists X, {| r_cls := cls;
               r_state := r_state (ndarray_reduce X) ++ [PyDict A] |},
    {| ob_type := cls; payload := P;
       inst_dict := A ∪ {[ registry := PyDict A ]} |}.
  split; [apply Results_new_dict |].
  split; [apply (Results_reduce_ok X); apply lookup_insert_eq |].
  split; [by apply pickle_loads_state |].
  split; [done | split; [done |]].
  intros k Hk. change (inst_dict _) with (A ∪ {[ registry := PyDict A ]}).
  rewrite lookup_union, lookup_singleton_ne by done.
  by destruct (A !! k).
Qed.

Lemma pickle_roundtrip_attributes_witness :
  let P := {| shape := [2%nat]; data := [1%Q; 2%Q] |} in
  let A : gmap string pyval :=
    <[ registry := PyInt 5 ]> {[ "speed" := PyInt 100 ]} in
  wf_ndarray P
  ∧ plain_names A
  ∧ ∃ X r X',
      Results_new Results P (PyDict A) = Ok X
      ∧ pickle_dumps X = Ok r
      ∧ pickle_loads r = Ok X'
      ∧ payload X' = P
      ∧ inst_dict X' !! "speed" = Some (PyInt 100).
Proof.
  intros P A.
  assert (Hwf : wf_ndarray P) by reflexivity.
  assert (Hpl : plain_names A).
  { apply map_Forall_insert_2; [reflexivity |].
    apply map_Forall_singleton. reflexivity. }
  split; [exact Hwf | split; [exact Hpl |]].
  destruct (pickle_roundtrip_attributes Results P A Hwf Hpl)
    as (X & r & X' & H1 & H2 & H3 & _ & H4 & H5).
  exists X, r, X'.
  split; [exact H1 | split; [exact H2 | split; [exact H3 | split; [exact H4 |]]]].
  rewrite H5 by discriminate. vm_compute; reflexivity.
Defined.

(** X4: An attribute reassigned after construction: a derived array sees the
    new value, but the pickle stores the dictionary given to the
    constructor, so a saved and reloaded object has the old value again. *)
Theorem reassigned_attribute_lost_by_pickle
    (cls : pyclass) (P p : ndarray) (A : gmap string pyval)
    (X : instance) (k : string) (v v' : pyval) :
  wf_ndarray P →
  k ≠ registry →
  A !! k = Some v →
  Results_new cls P (PyDict A) = Ok X →
  (∃ Y, ndarray_derive (setattr X k v') p = Ok Y
        ∧ inst_dict Y !! k = Some v')
  ∧ (∃ r X', pickle_dumps (setattr X k v') = Ok r
             ∧ pickle_loads r = Ok X'
             ∧ payload X' = P
             ∧ inst_dict X' !! k = Some v).
Proof.
  intros Hwf Hk HA. rewrite Results_new_dict.
  intros HX.
  assert (X = {| ob_type := cls; payload := P;
                 inst_dict := <[registry := PyDict A]> A |}) as ->
    by congruence.
  clear HX.
  set (X1 := setattr _ k v').
  assert (Hreg : inst_dict X1 !! registry = Some (PyDict A)).
  { unfold X1. cbn. rewrite lookup_insert_ne by done. apply lookup_insert_eq. }
  split.
  - destruct (derive_lookup X1 A p Hreg) as (Y & HY & _ & _ & Hd).
    exists Y. split; [done |]. rewrite Hd, HA.
    unfold getattr_default, X1. cbn. by rewrite lookup_insert_eq.
  - exists {| r_cls := cls;
              r_state := r_state (ndarray_reduce X1) ++ [PyDict A] |},
      {| ob_type := cls; payload := P;
         inst_dict := A ∪ {[ registry := PyDict A ]} |}.
    split; [by apply (Results_reduce_ok X1) |].
    split; [by apply pickle_loads_state |].
    split; [done |]. cbn. by apply lookup_union_Some_l.
Qed.

Lemma reassigned_attribute_lost_by_pickle_witness :
  let P := {| shape := [2%nat]; data := [1%Q; 2%Q] |} in
  let A : gmap string pyval := {[ "speed" := PyInt 100 ]} in
  wf_ndarray P
  ∧ "speed" ≠ registry
  ∧ A !! "speed" = Some (PyInt 100)
  ∧ ∃ X, Results_new Results P (PyDict A) = Ok X
    ∧ (∃ Y, ndarray_derive (setattr X "speed" (PyInt 120)) P = Ok Y
            ∧ inst_dict Y !! "speed" = Some (PyInt 120))
    ∧ (∃ r X', pickle_dumps (setattr X "speed" (PyInt 120)) = Ok r
               ∧ pickle_loads r = Ok X'
               ∧ payload X' = P
               ∧ inst_dict X' !! "speed" = Some (PyInt 100)).
Proof.
  intros P A.
  assert (Hwf : wf_ndarray P) by reflexivity.
  assert (Hk : "speed" ≠ registry) by discriminate.
  assert (HA : A !! "speed" = Some (PyInt 100)) by (vm_compute; reflexivity).
  split; [exact Hwf | split; [exact Hk | split; [exact HA |]]].
  eexists. split; [apply Results_new_dict |].
  exact (reassigned_attribute_lost_by_pickle Results P P A _ "speed"
           (PyInt 100) (PyInt 120) Hwf Hk HA (Results_new_dict Results P A)).
Defined.

(** * Further properties of the renderers *)

(** *** Campbell diagram *)
Lemma mapM_length {A B} (f : A → result B) (l : list A) (bs : list B) :
  mapM f l = Ok bs → length bs = length l.
Proof.
  revert bs. induction l as [| a l IH]; intros bs; cbn.
  - by intros [= <-].
  - destruct (f a); cbn; [| done].
    destruct (mapM f l) as [bs' |]; cbn; [| done].
    intros [= <-]. cbn. by rewrite (IH bs').
Qed.

Lemma mapM_Forall2 {A B} (f : A → result B) (l : list A) (bs : list B) :
  mapM f l = Ok bs → Forall2 (λ a b, f a = Ok b) l bs.
Proof.
  revert bs. induction l as [| a l IH]; intros bs; cbn.
  - intros [= <-]. constructor.
  - destruct (f a) eqn:Ea; cbn; [| done].
    destruct (mapM f l) as [bs' |]; cbn; [| done].
    intros [= <-]. constructor; [done | by apply IH].
Qed.

Lemma size_of_app (l1 l2 : list nat) :
  size_of (l1 ++ l2) = (size_of l1 * size_of l2)%nat.
Proof.
  unfold size_of. induction l1 as [| n l1 IH]; cbn; [lia |].
  rewrite IH. lia.
Qed.

Lemma size_of_reverse (l : list nat) : size_of (reverse l) = size_of l.
Proof.
  induction l as [| n l IH]; [done |].
  rewrite reverse_cons, size_of_app, IH. unfold size_of. cbn. lia.
Qed.

(** What [a[..., k]] returns. *)
Lemma index_last_axis_Ok (a b : ndarray) (k : nat) :
  index_last_axis a k = Ok b →
  ∃ m lead, shape a = lead ++ [m] ∧ (k < m)%nat
            ∧ shape b = lead ∧ wf_ndarray b.
Proof.
  unfold index_last_axis. destruct (reverse (shape a)) as [| m lead] eqn:Hr;
    [done |].
  destruct (decide (k < m)%nat); [| done]. intros [= <-].
  exists m, (reverse lead). split.
  - rewrite <- (reverse_involutive (shape a)), Hr. by rewrite reverse_cons.
  - split; [done | split; [done |]]. unfold wf_ndarray. cbn.
    by rewrite length_fmap, length_seq, size_of_reverse.
Qed.

Lemma index_last_axis_short (a : ndarray) (lead : list nat) (m k : nat) :
  shape a = lead ++ [m] → (m ≤ k)%nat → index_last_axis a k = Raise IndexError.
Proof.
  intros Hs Hk. unfold index_last_axis. rewrite Hs, reverse_snoc.
  destruct (decide (k < m)%nat); [lia | done].
Qed.

Lemma index_last_axis_long (a : ndarray) (lead : list nat) (m k : nat) :
  shape a = lead ++ [m] → (k < m)%nat →
  ∃ b, index_last_axis a k = Ok b ∧ shape b = lead ∧ wf_ndarray b.
Proof.
  intros Hs Hk. unfold index_last_axis. rewrite Hs, reverse_snoc.
  destruct (decide (k < m)%nat); [| lia]. eexists. split; [done |].
  cbn. rewrite reverse_involutive. split; [done |].
  unfold wf_ndarray. cbn.
  by rewrite length_fmap, length_seq, size_of_reverse.
Qed.

(** X5: The flag [wn] of [CampbellResults.plot] does not reach the
    figure: line 96 rebinds [wn] to an array, after which [wn is True] is
    false, so column 0 is drawn in either case.  Where column 4 exists the
    two calls agree, and whenever the call with [wn=True] succeeds the call
    with [wn=False] returns the same figure. *)
Theorem campbell_wn_ignored (self : instance) :
  (∀ a, index_last_axis (payload self) 4 = Ok a →
        CampbellResults_plot self true = CampbellResults_plot self false)
  ∧ (∀ fig, CampbellResults_plot self true = Ok fig →
            CampbellResults_plot self false = Ok fig).
Proof.
  assert (H : ∀ a, index_last_axis (payload self) 4 = Ok a →
        CampbellResults_plot self true = CampbellResults_plot self false).
  { intros a Ha. unfold CampbellResults_plot. rewrite Ha. reflexivity. }
  split; [exact H |].
  intros fig Hfig.
  destruct (index_last_axis (payload self) 4) as [a |] eqn:Ha.
  - by rewrite <- (H a).
  - unfold CampbellResults_plot in Hfig. rewrite Ha in Hfig.
    by destruct (index_last_axis (payload self) 0).
Qed.

Lemma length_concat_fmap_const {A B} (f : A → list B) (l : list A) (w : nat) :
  (∀ a, a ∈ l → length (f a) = w) →
  length (concat (f <$> l)) = (length l * w)%nat.
Proof.
  induction l as [| a l IH]; intros Hf; [done |].
  cbn. rewrite length_app, Hf by left. rewrite IH; [lia |].
  intros b Hb. apply Hf. by right.
Qed.

(** What [a[:, i]] returns. *)
Lemma column_Ok (a b : ndarray) (i : nat) :
  column a i = Ok b →
  ∃ r c rest, shape a = r :: c :: rest ∧ (i < c)%nat ∧ shape b = r :: rest.
Proof.
  unfold column. destruct (shape a) as [| r [| c rest]]; [done | done |].
  destruct (decide (i < c)%nat); [| done]. intros [= <-].
  by exists r, c, rest.
Qed.

Lemma column_wf (a b : ndarray) (i : nat) :
  wf_ndarray a → column a i = Ok b → wf_ndarray b.
Proof.
  unfold wf_ndarray, column.
  destruct (shape a) as [| r [| c rest]]; [done | done |].
  destruct (decide (i < c)%nat) as [Hi |]; [| done]. intros Hwf [= <-]. cbn.
  rewrite (length_concat_fmap_const _ _ (size_of rest)).
  - by rewrite length_seq.
  - intros s [_ Hs]%elem_of_seq. rewrite length_take, length_drop, Hwf.
    change (size_of (r :: c :: rest)) with (r * (c * size_of rest))%nat.
    cbn in Hs. generalize (size_of rest). intros w.
    assert (H1 : (s * c + i + 1 ≤ r * c)%nat) by nia.
    apply (Nat.mul_le_mono_r _ _ w) in H1. nia.
Qed.

Lemma select_length_eq (mask : list bool) (x y : list Q) :
  length x = length mask → length y = length mask →
  length (select mask x) = length (select mask y).
Proof.
  revert x y. induction mask as [| b mask IH]; intros [| u x] [| v y];
    cbn; try done.
  intros [= Hx] [= Hy]. destruct b; cbn; rewrite (IH x y); done.
Qed.

(** One pass of the loop body that is reached with a non-empty speed
    range yields a series. *)
Lemma campbell_series_Ok
    (wd log_dec whirl speed_range : ndarray) (wn : wn_local)
    (mark : string) (whirl_dir : Q) (legend0 : string) (i : nat)
    (o : option scatter) (lead : list nat) (r : nat) :
  shape wd = lead → shape log_dec = lead → shape whirl = lead →
  shape speed_range = lead →
  wf_ndarray wd → wf_ndarray log_dec → wf_ndarray whirl →
  wf_ndarray speed_range →
  head lead = Some r → r ≠ 0%nat →
  campbell_series wd log_dec whirl speed_range wn mark whirl_dir legend0 i
  = Ok o →
  ∃ s, o = Some s ∧ marker s = mark ∧ legend s = legend0
       ∧ length (sc_x s) = length (sc_y s)
       ∧ length (sc_x s) = length (sc_color s).
Proof.
  intros Hwd Hld Hwh Hsp Wwd Wld Wwh Wsp Hr Hr0. unfold campbell_series.
  assert (Hw : (if is_True wn then wn_column wn i else column wd i)
               = column wd i
               ∨ (if is_True wn then wn_column wn i else column wd i)
                 = Raise TypeError).
  { destruct wn as [[|] | a]; [by right | by left | by left]. }
  destruct Hw as [-> | ->]; [| done].
  destruct (column wd i) as [w_i |] eqn:Ew; cbn [bind]; [| done].
  destruct (column whirl i) as [whirl_i |] eqn:Ewh; cbn [bind]; [| done].
  destruct (column log_dec i) as [log_dec_i |] eqn:Eld; cbn [bind]; [| done].
  destruct (column speed_range i) as [speed_i |] eqn:Esp; cbn [bind]; [| done].
  assert (Hsh : ∀ a b, shape a = lead → wf_ndarray a → column a i = Ok b →
                       ∃ rest, shape b = r :: rest
                               ∧ length (data b) = size_of (r :: rest)).
  { intros a b Ha Wa Hab.
    destruct (column_Ok a b i Hab) as (r' & c & rest & Hs & _ & Hb).
    rewrite Ha in Hs. rewrite Hs in Hr. injection Hr as ->.
    exists rest. split; [done |].
    rewrite <- Hb. by apply (column_wf a b i). }
  destruct (Hsh _ _ Hwd Wwd Ew) as (rw & Hw1 & Hw2).
  destruct (Hsh _ _ Hwh Wwh Ewh) as (rh & Hh1 & Hh2).
  destruct (Hsh _ _ Hld Wld Eld) as (rl & Hl1 & Hl2).
  destruct (Hsh _ _ Hsp Wsp Esp) as (rs & Hs1 & Hs2).
  assert (Hrest : ∀ a b, shape a = lead → column a i = Ok b →
                         shape b = r :: rh).
  { intros a b Ha Hab.
    destruct (column_Ok a b i Hab) as (r1 & c1 & rest1 & Hs & _ & Hb).
    destruct (column_Ok whirl whirl_i i Ewh) as (r2 & c2 & rest2 & Hs' & _ & Hb').
    rewrite Ha in Hs. rewrite Hwh, Hs in Hs'. injection Hs' as -> -> ->.
    rewrite Hh1 in Hb'. injection Hb' as -> ->. done. }
  assert (rw = rh) as -> by (pose proof (Hrest _ _ Hwd Ew); congruence).
  assert (rl = rh) as -> by (pose proof (Hrest _ _ Hld Eld); congruence).
  assert (rs = rh) as -> by (pose proof (Hrest _ _ Hsp Esp); congruence).
  unfold shape_at. rewrite Hh1. cbn.
  destruct (decide (r = 0)%nat); [done |]. intros [= <-].
  eexists. split; [done |]. cbn. split; [done | split; [done |]].
  split; apply select_length_eq; rewrite ?length_fmap; congruence.
Qed.

Lemma campbell_mode_loop
    (wd log_dec whirl speed_range : ndarray) (wn : wn_local)
    (mark : string) (whirl_dir : Q) (legend0 : string) (modes : list nat)
    (l : list (option scatter)) (lead : list nat) (r : nat) :
  shape wd = lead → shape log_dec = lead → shape whirl = lead →
  shape speed_range = lead →
  wf_ndarray wd → wf_ndarray log_dec → wf_ndarray whirl →
  wf_ndarray speed_range →
  head lead = Some r → r ≠ 0%nat →
  mapM (campbell_series wd log_dec whirl speed_range wn mark whirl_dir legend0)
       modes = Ok l →
  ∃ ss, l = Some <$> ss ∧ length ss = length modes
        ∧ Forall (series_ok mark legend0) ss.
Proof.
  intros Hwd Hld Hwh Hsp Wwd Wld Wwh Wsp Hr Hr0 Hl.
  apply mapM_Forall2 in Hl.
  induction Hl as [| i o modes l Hi _ IH].
  - by exists [].
  - destruct IH as (ss & -> & Hlen & Hss).
    destruct (campbell_series_Ok _ _ _ _ _ _ _ _ _ _ _ _
                Hwd Hld Hwh Hsp Wwd Wld Wwh Wsp Hr Hr0 Hi)
      as (s & -> & Hs).
    exists (s :: ss). split; [done |]. cbn. split; [by rewrite Hlen |].
    by constructor.
Qed.

Lemma omap_id_Some {A} (l : list A) : omap id (Some <$> l) = l.
Proof. induction l as [| a l IH]; [done |]. cbn. by rewrite IH. Qed.

Lemma campbell_plot_inv (self : instance) (wn : bool) (fig : campbell_figure) :
  CampbellResults_plot self wn = Ok fig →
  ∃ r c rest m wd ld wh sp wn' s1 s2 s3,
    campbell_parts self fig r c rest m wd ld wh sp wn' s1 s2 s3.
Proof.
  unfold CampbellResults_plot.
  destruct (index_last_axis (payload self) 0) as [wd |] eqn:Ewd;
    cbn [bind]; [| done].
  destruct (if wn then _ else _) as [wn' |]; cbn [bind]; [| done].
  destruct (index_last_axis (payload self) 1) as [ld |] eqn:Eld;
    cbn [bind]; [| done].
  destruct (index_last_axis (payload self) 2) as [wh |] eqn:Ewh;
    cbn [bind]; [| done].
  destruct (index_last_axis (payload self) 3) as [sp |] eqn:Esp;
    cbn [bind]; [| done].
  destruct (index_last_axis_Ok _ _ _ Ewd) as (m & lead & Hs & _ & Hwd & Wwd).
  assert (Hlead : ∀ b k, index_last_axis (payload self) k = Ok b →
                         shape b = lead ∧ wf_ndarray b).
  { intros b k Hb.
    destruct (index_last_axis_Ok _ _ _ Hb) as (m' & lead' & Hs' & _ & Hb' & Wb).
    rewrite Hs in Hs'. apply app_inj_tail in Hs' as [-> _]. done. }
  destruct (Hlead _ _ Eld) as [Hld Wld].
  destruct (Hlead _ _ Ewh) as [Hwh Wwh].
  destruct (Hlead _ _ Esp) as [Hsp Wsp].
  destruct (py_min (data ld)) as [lo |] eqn:Elo; cbn [bind]; [| done].
  destruct (py_max (data ld)) as [hi |]; cbn [bind]; [| done].
  assert (Hne : size_of lead ≠ 0%nat).
  { unfold wf_ndarray in Wld. rewrite Hld in Wld. rewrite <- Wld.
    by destruct (data ld). }
  unfold whirl_marks. cbn [mapM bind].
  destruct (shape_at wd 1) as [nf |] eqn:Enf; cbn [bind]; [| done].
  unfold shape_at in Enf. rewrite Hwd in Enf.
  destruct lead as [| r [| c rest]]; [done | done |].
  cbn in Enf. injection Enf as <-.
  assert (Hr : (0 < r)%nat ∧ (0 < c)%nat).
  { change (size_of (r :: c :: rest)) with (r * (c * size_of rest))%nat in Hne.
    nia. }
  destruct Hr as [Hr Hc].
  destruct (mapM _ (seq 0 c)) as [l1 |] eqn:E1 at 1; cbn [bind]; [| done].
  destruct (mapM _ (seq 0 c)) as [l2 |] eqn:E2 at 1; cbn [bind]; [| done].
  destruct (mapM _ (seq 0 c)) as [l3 |] eqn:E3 at 1; cbn [bind]; [| done].
  destruct (campbell_mode_loop _ _ _ _ _ _ _ _ _ _ _ r
              Hwd Hld Hwh Hsp Wwd Wld Wwh Wsp eq_refl ltac:(lia) E1)
    as (s1 & -> & L1 & F1).
  destruct (campbell_mode_loop _ _ _ _ _ _ _ _ _ _ _ r
              Hwd Hld Hwh Hsp Wwd Wld Wwh Wsp eq_refl ltac:(lia) E2)
    as (s2 & -> & L2 & F2).
  destruct (campbell_mode_loop _ _ _ _ _ _ _ _ _ _ _ r
              Hwd Hld Hwh Hsp Wwd Wld Wwh Wsp eq_refl ltac:(lia) E3)
    as (s3 & -> & L3 & F3).
  rewrite length_seq in L1, L2, L3.
  cbn [concat]. rewrite app_nil_r, <- !fmap_app, omap_id_Some.
  destruct (column sp 0); cbn [bind]; [| done].
  destruct (s1 ++ s2 ++ s3) as [| s0 rest0] eqn:Hd; [done |].
  intros [= <-]. cbn [scatters]. rewrite <- Hd.
  exists r, c, rest, m, wd, ld, wh, sp, wn', s1, s2, s3.
  by constructor.
Qed.

(** X6: A successful Campbell plot draws one series per whirl direction and
    mode, forward first, then mixed, then backward, and every series has
    as many x values as y values and colours. *)
Theorem campbell_series_layout (self : instance) (wn : bool)
    (fig : campbell_figure) :
  CampbellResults_plot self wn = Ok fig →
  ∃ r c rest m,
    shape (payload self) = r :: c :: rest ++ [m]
    ∧ (0 < r)%nat ∧ (0 < c)%nat
    ∧ marker <$> scatters fig
      = replicate c "^" ++ replicate c "o" ++ replicate c "v"
    ∧ Forall (λ s, length (sc_x s) = length (sc_y s)
                   ∧ length (sc_x s) = length (sc_color s)) (scatters fig).
Proof.
  intros (r & c & rest & m & wd & ld & wh & sp & wn' & s1 & s2 & s3 & H)
    %campbell_plot_inv.
  destruct H as [Hs Hr Hc _ _ _ _ _ _ _ _ _ (L1 & L2 & L3) (F1 & F2 & F3) ->].
  exists r, c, rest, m. split; [done | split; [done | split; [done |]]].
  assert (Hmk : ∀ mark leg ss, Forall (series_ok mark leg) ss →
                  marker <$> ss = replicate (length ss) mark).
  { intros mark leg ss Hss. induction Hss as [| s ss [Hm _] _ IH]; [done |].
    cbn. by rewrite Hm, IH. }
  assert (Hlen : ∀ mark leg ss, Forall (series_ok mark leg) ss →
                  Forall (λ s, length (sc_x s) = length (sc_y s)
                               ∧ length (sc_x s) = length (sc_color s)) ss).
  { intros mark leg ss Hss. eapply Forall_impl; [exact Hss |].
    by intros s (_ & _ & ? & ?). }
  split.
  - rewrite !fmap_app, (Hmk _ _ _ F1), (Hmk _ _ _ F2), (Hmk _ _ _ F3).
    by rewrite L1, L2, L3.
  - rewrite !Forall_app. split; [by eapply Hlen | split; by eapply Hlen].
Qed.

Lemma select_length_count (f : Q → bool) (ws x : list Q) :
  length x = length ws →
  length (select (f <$> ws) x) = length (List.filter f ws).
Proof.
  revert x. induction ws as [| w ws IH]; intros [| u x]; cbn; try done.
  intros [= Hx]. destruct (f w); cbn; by rewrite IH.
Qed.

Lemma known_whirl_count (ws : list Q) :
  (length (List.filter (λ w, Qeq_bool w 0) ws)
   + length (List.filter (λ w, Qeq_bool w (1 # 2)) ws)
   + length (List.filter (λ w, Qeq_bool w 1) ws)
   = length (List.filter known_whirl ws))%nat.
Proof.
  induction ws as [| w ws IH]; [done |].
  cbn. unfold known_whirl at 1.
  assert (H01 : Qeq_bool w 0 = true → Qeq_bool w (1 # 2) = false
                                      ∧ Qeq_bool w 1 = false).
  { intros H0%Qeq_bool_iff. split; apply not_true_is_false;
      intros H1%Qeq_bool_iff; rewrite H0 in H1; discriminate H1. }
  assert (H12 : Qeq_bool w (1 # 2) = true → Qeq_bool w 1 = false).
  { intros H0%Qeq_bool_iff. apply not_true_is_false.
    intros H1%Qeq_bool_iff. rewrite H0 in H1. discriminate H1. }
  destruct (Qeq_bool w 0) eqn:E0.
  - destruct (H01 eq_refl) as [-> ->]. cbn. lia.
  - destruct (Qeq_bool w (1 # 2)) eqn:E1.
    + rewrite (H12 eq_refl). cbn. lia.
    + destruct (Qeq_bool w 1); cbn; lia.
Qed.

(** Indexing with the mask of a whirl direction keeps the values at the
    steps with that whirl value. *)
Lemma select_steps_with (dir : Q) (ws xs : list Q) :
  select ((λ w, Qeq_bool w dir) <$> ws) xs = steps_with dir ws xs.
Proof.
  unfold steps_with. revert xs.
  induction ws as [| w ws IH]; intros [| x xs]; cbn; try done.
  rewrite IH. by destruct (Qeq_bool w dir).
Qed.

Lemma steps_with_length (dir : Q) (ws xs : list Q) :
  length xs = length ws →
  length (steps_with dir ws xs)
  = length (List.filter (λ w, Qeq_bool w dir) ws).
Proof.
  intros Hlen. rewrite <- select_steps_with. by apply select_length_count.
Qed.

(** The points of one pass of the loop body. *)
Lemma campbell_series_points
    (wd log_dec whirl speed_range : ndarray) (wn : wn_local)
    (mark : string) (whirl_dir : Q) (legend0 : string) (i : nat)
    (s : scatter) (wd_i log_dec_i whirl_i speed_i : ndarray) :
  column wd i = Ok wd_i →
  column log_dec i = Ok log_dec_i →
  column whirl i = Ok whirl_i →
  column speed_range i = Ok speed_i →
  campbell_series wd log_dec whirl speed_range wn mark whirl_dir legend0 i
  = Ok (Some s) →
  series_of whirl_dir whirl_i speed_i wd_i log_dec_i s.
Proof.
  intros Ewd Eld Ewh Esp. unfold campbell_series.
  assert (Hw : (if is_True wn then wn_column wn i else column wd i)
               = Ok wd_i
               ∨ (if is_True wn then wn_column wn i else column wd i)
                 = Raise TypeError).
  { destruct wn as [[|] | a]; [by right | by left | by left]. }
  destruct Hw as [-> | ->]; [| done].
  rewrite Ewh, Eld, Esp. cbn [bind].
  destruct (shape_at whirl_i 0); cbn [bind]; [| done].
  destruct (decide _); [done |]. intros [= <-].
  unfold series_of. cbn. by rewrite !select_steps_with.
Qed.

(** X7: In a successful Campbell plot the series of a mode for a whirl
    direction holds exactly the steps of that mode whose whirl value
    equals the direction (0 forward, 0.5 mixed, 1 backward), in step
    order: their speeds as x, their damped frequencies (column 0) as y and
    their log decrements as colours.  Together the three series hold the
    steps whose whirl value is 0, 0.5 or 1; a step with any other whirl
    value is drawn in no series. *)
Theorem campbell_points_per_mode (self : instance) (wn : bool)
    (fig : campbell_figure) :
  CampbellResults_plot self wn = Ok fig →
  ∃ c wd log_dec whirl speed,
    index_last_axis (payload self) 0 = Ok wd
    ∧ index_last_axis (payload self) 1 = Ok log_dec
    ∧ index_last_axis (payload self) 2 = Ok whirl
    ∧ index_last_axis (payload self) 3 = Ok speed
    ∧ shape_at whirl 1 = Ok c
    ∧ length (scatters fig) = (3 * c)%nat
    ∧ ∀ i, (i < c)%nat →
        ∃ wd_i log_dec_i whirl_i speed_i s0 s1 s2,
          column wd i = Ok wd_i
          ∧ column log_dec i = Ok log_dec_i
          ∧ column whirl i = Ok whirl_i
          ∧ column speed i = Ok speed_i
          ∧ scatters fig !! i = Some s0
          ∧ scatters fig !! (c + i)%nat = Some s1
          ∧ scatters fig !! (2 * c + i)%nat = Some s2
          ∧ series_of 0 whirl_i speed_i wd_i log_dec_i s0
          ∧ series_of (1 # 2) whirl_i speed_i wd_i log_dec_i s1
          ∧ series_of 1 whirl_i speed_i wd_i log_dec_i s2
          ∧ (length (sc_x s0) + length (sc_x s1) + length (sc_x s2)
             = length (List.filter known_whirl (data whirl_i)))%nat.
Proof.
  intros (r & c & rest & m & wd & ld & wh & sp & wn' & s1 & s2 & s3 & H)
    %campbell_plot_inv.
  destruct H as [Hs Hr Hc Ewd Eld Ewh Esp (Hwd & Hld & Hwh & Hsp)
                   (Wwd & Wld & Wwh & Wsp) E1 E2 E3 (L1 & L2 & L3) _ Hfig].
  exists c, wd, ld, wh, sp.
  split; [done | split; [done | split; [done | split; [done |]]]].
  split; [unfold shape_at; by rewrite Hwh |].
  split; [rewrite Hfig, !length_app; lia |].
  intros i Hi.
  assert (Hcol : ∀ a, shape a = r :: c :: rest → ∃ a_i, column a i = Ok a_i).
  { intros a Ha. unfold column. rewrite Ha.
    destruct (decide (i < c)%nat); [| lia]. by eexists. }
  destruct (Hcol _ Hwd) as [wd_i Cwd].
  destruct (Hcol _ Hld) as [ld_i Cld].
  destruct (Hcol _ Hwh) as [wh_i Cwh].
  destruct (Hcol _ Hsp) as [sp_i Csp].
  exists wd_i, ld_i, wh_i, sp_i.
  assert (Hget : ∀ mark dir leg ss,
            mapM (campbell_series wd ld wh sp wn' mark dir leg) (seq 0 c)
            = Ok (Some <$> ss) →
            ∃ s, ss !! i = Some s ∧ series_of dir wh_i sp_i wd_i ld_i s).
  { intros mark dir leg ss E. apply mapM_Forall2 in E.
    destruct (Forall2_lookup_l _ _ _ i i E) as (o & Ho & Hser).
    { by apply lookup_seq_lt. }
    rewrite list_lookup_fmap in Ho.
    destruct (ss !! i) as [s |] eqn:Ess; [| done].
    injection Ho as <-. exists s. split; [done |].
    by eapply campbell_series_points. }
  destruct (Hget _ _ _ _ E1) as (t0 & G0 & N0).
  destruct (Hget _ _ _ _ E2) as (t1 & G1 & N1).
  destruct (Hget _ _ _ _ E3) as (t2 & G2 & N2).
  exists t0, t1, t2.
  split; [done | split; [done | split; [done | split; [done |]]]].
  rewrite Hfig. split; [| split; [| split]].
  - by rewrite lookup_app_l by lia.
  - rewrite lookup_app_r by lia. rewrite lookup_app_l by lia.
    by replace (c + i - length s1)%nat with i by lia.
  - rewrite lookup_app_r by lia. rewrite lookup_app_r by lia.
    by replace (2 * c + i - length s1 - length s2)%nat with i by lia.
  - split; [done | split; [done | split; [done |]]].
    assert (Hlen : length (data sp_i) = length (data wh_i)).
    { pose proof (column_wf _ _ _ Wwh Cwh) as W1.
      pose proof (column_wf _ _ _ Wsp Csp) as W2.
      destruct (column_Ok _ _ _ Cwh) as (r1 & c1 & t1' & S1 & _ & B1).
      destruct (column_Ok _ _ _ Csp) as (r2 & c2 & t2' & S2 & _ & B2).
      unfold wf_ndarray in W1, W2. rewrite W1, W2, B1, B2. congruence. }
    destruct N0 as [-> _], N1 as [-> _], N2 as [-> _].
    rewrite !steps_with_length by done. apply known_whirl_count.
Qed.

(** X8: The Campbell plot reads columns 0 to 3 of the last axis, and column 4
    as well when [wn] is set (although that column is never drawn): a
    payload with fewer columns makes it raise [IndexError]. *)
Theorem campbell_needs_columns (self : instance) (wn : bool)
    (lead : list nat) (m : nat) :
  shape (payload self) = lead ++ [m] →
  (m < 4)%nat ∨ (wn = true ∧ m < 5)%nat →
  CampbellResults_plot self wn = Raise IndexError.
Proof.
  intros Hs Hm. unfold CampbellResults_plot.
  assert (Hstep : ∀ k,
    (∃ b, index_last_axis (payload self) k = Ok b ∧ (k < m)%nat)
    ∨ (index_last_axis (payload self) k = Raise IndexError ∧ (m ≤ k)%nat)).
  { intros k. destruct (decide (k < m)%nat) as [Hk | Hk].
    - left. destruct (index_last_axis_long _ _ _ k Hs Hk) as (b & Hb & _).
      by exists b.
    - right. split; [| lia]. apply (index_last_axis_short _ _ _ k Hs). lia. }
  destruct (Hstep 0%nat) as [(wd & -> & H0) | [-> _]]; [| done]. cbn [bind].
  destruct wn.
  - destruct (Hstep 4%nat) as [(a & _ & H4) | [-> _]]; [lia | done].
  - cbn [bind].
    destruct (Hstep 1%nat) as [(ld & -> & H1) | [-> _]]; [| done]. cbn [bind].
    destruct (Hstep 2%nat) as [(wh & -> & H2) | [-> _]]; [| done]. cbn [bind].
    destruct (Hstep 3%nat) as [(sp & _ & H3) | [-> _]]; [| done].
    destruct Hm as [Hm | [Hm _]]; [lia | done].
Qed.

Lemma campbell_needs_columns_witness :
  let self := {| ob_type := CampbellResults;
                 payload := {| shape := [1%nat; 1%nat; 4%nat];
                               data := [10%Q; 0%Q; 0%Q; 5%Q] |};
                 inst_dict := ∅ |} in
  shape (payload self) = [1%nat; 1%nat] ++ [4%nat]
  ∧ CampbellResults_plot self true = Raise IndexError
  ∧ ∃ fig, CampbellResults_plot self false = Ok fig.
Proof.
  intros self.
  assert (Hs : shape (payload self) = [1%nat; 1%nat] ++ [4%nat]) by reflexivity.
  split; [exact Hs |]. split.
  - apply (campbell_needs_columns self true [1%nat; 1%nat] 4 Hs).
    right. split; [reflexivity | lia].
  - eexists. vm_compute. reflexivity.
Defined.

(** X9: With no speed step or no mode the colour range cannot be computed:
    [min(log_dec_map)] raises [ValueError]. *)
Theorem campbell_empty_payload (self : instance) (wn : bool)
    (lead : list nat) (m : nat) :
  shape (payload self) = lead ++ [m] →
  size_of lead = 0%nat →
  (4 ≤ m)%nat →
  (wn = true → 5 ≤ m)%nat →
  CampbellResults_plot self wn = Raise ValueError.
Proof.
  intros Hs Hz Hm Hwn. unfold CampbellResults_plot.
  destruct (index_last_axis_long _ _ _ 0 Hs ltac:(lia)) as (wd & -> & _).
  cbn [bind].
  assert (Hw : ∃ wn', (if wn
                       then a <- index_last_axis (payload self) 4 ;;
                            Ok (WnArray a)
                       else Ok (WnFlag wn)) = Ok wn').
  { destruct wn; [| by eexists].
    destruct (index_last_axis_long _ _ _ 4 Hs ltac:(by apply Hwn))
      as (a & -> & _). by eexists. }
  destruct Hw as [wn' ->]. cbn [bind].
  destruct (index_last_axis_long _ _ _ 1 Hs ltac:(lia)) as (ld & -> & Hld & Wld).
  cbn [bind].
  destruct (index_last_axis_long _ _ _ 2 Hs ltac:(lia)) as (wh & -> & _).
  cbn [bind].
  destruct (index_last_axis_long _ _ _ 3 Hs ltac:(lia)) as (sp & -> & _).
  cbn [bind].
  unfold wf_ndarray in Wld. rewrite Hld, Hz in Wld.
  by destruct (data ld).
Qed.

Lemma campbell_empty_payload_witness :
  let self := {| ob_type := CampbellResults;
                 payload := {| shape := [0%nat; 2%nat; 5%nat]; data := [] |};
                 inst_dict := ∅ |} in
  shape (payload self) = [0%nat; 2%nat] ++ [5%nat]
  ∧ CampbellResults_plot self false = Raise ValueError.
Proof.
  intros self.
  assert (Hs : shape (payload self) = [0%nat; 2%nat] ++ [5%nat]) by reflexivity.
  split; [exact Hs |].
  apply (campbell_empty_payload self false [0%nat; 2%nat] 5 Hs);
    [reflexivity | lia | discriminate].
Defined.

Lemma campbell_wn_ignored_witness :
  let self := {| ob_type := CampbellResults;
                 payload := {| shape := [2%nat; 1%nat; 5%nat];
                               data := [10%Q; 1%Q; 0%Q; 5%Q; 11%Q;
                                        12%Q; 2%Q; 1%Q; 6%Q; 13%Q] |};
                 inst_dict := ∅ |} in
  ∃ fig, CampbellResults_plot self true = Ok fig
         ∧ CampbellResults_plot self false = Ok fig
         ∧ sc_y <$> scatters fig = [[10%Q]; []; [12%Q]].
Proof.
  intros self.
  assert (H : ∃ fig, CampbellResults_plot self true = Ok fig
                     ∧ sc_y <$> scatters fig = [[10%Q]; []; [12%Q]]).
  { eexists. split; vm_compute; reflexivity. }
  destruct H as (fig & Hfig & Hy). exists fig.
  split; [exact Hfig |].
  split; [exact (proj2 (campbell_wn_ignored self) fig Hfig) | exact Hy].
Defined.

Lemma campbell_series_layout_witness :
  let self := {| ob_type := CampbellResults;
                 payload := {| shape := [2%nat; 1%nat; 5%nat];
                               data := [10%Q; 1%Q; 0%Q; 5%Q; 11%Q;
                                        12%Q; 2%Q; 1%Q; 6%Q; 13%Q] |};
                 inst_dict := ∅ |} in
  ∃ fig, CampbellResults_plot self false = Ok fig
         ∧ marker <$> scatters fig = ["^"; "o"; "v"].
Proof.
  intros self.
  assert (H : ∃ fig, CampbellResults_plot self false = Ok fig).
  { eexists. vm_compute. reflexivity. }
  destruct H as (fig & Hfig). exists fig. split; [exact Hfig |].
  destruct (campbell_series_layout self false fig Hfig)
    as (r & c & rest & m & Hs & _ & _ & Hm & _).
  cbn in Hs. assert (c = 1%nat) as -> by congruence. exact Hm.
Defined.

Lemma campbell_points_per_mode_witness :
  let self := {| ob_type := CampbellResults;
                 payload := {| shape := [3%nat; 1%nat; 5%nat];
                               data := [10%Q; 1%Q; 0%Q; 5%Q; 11%Q;
                                        12%Q; 2%Q; (1 # 4)%Q; 6%Q; 13%Q;
                                        14%Q; 3%Q; 0%Q; 7%Q; 15%Q] |};
                 inst_dict := ∅ |} in
  ∃ fig s0, CampbellResults_plot self false = Ok fig
            ∧ scatters fig !! 0%nat = Some s0
            ∧ sc_x s0 = [5%Q; 7%Q]
            ∧ sc_y s0 = [10%Q; 14%Q]
            ∧ sc_color s0 = [1%Q; 3%Q].
Proof.
  intros self.
  assert (H : ∃ fig, CampbellResults_plot self false = Ok fig).
  { eexists. vm_compute. reflexivity. }
  destruct H as (fig & Hfig).
  destruct (campbell_points_per_mode self false fig Hfig)
    as (c & wd & ld & wh & sp & Hwd & Hld & Hwh & Hsp & Hc & _ & Hall).
  assert (c = 1%nat) as ->.
  { vm_compute in Hwh. injection Hwh as <-. vm_compute in Hc. congruence. }
  destruct (Hall 0%nat ltac:(lia))
    as (wd_i & ld_i & wh_i & sp_i & s0 & _ & _ & C1 & C2 & C3 & C4 & G0 & _
        & _ & (Hx & Hy & Hcl) & _).
  exists fig, s0. split; [exact Hfig | split; [exact G0 |]].
  vm_compute in Hwd. injection Hwd as <-.
  vm_compute in Hld. injection Hld as <-.
  vm_compute in Hwh. injection Hwh as <-.
  vm_compute in Hsp. injection Hsp as <-.
  vm_compute in C1. injection C1 as <-.
  vm_compute in C2. injection C2 as <-.
  vm_compute in C3. injection C3 as <-.
  vm_compute in C4. injection C4 as <-.
  rewrite Hx, Hy, Hcl. split; [| split]; vm_compute; reflexivity.
Defined.

(** *** Response plots *)

Lemma getitem_to_mic_pk_pk (mag : ndarray) (dof : nat) :
  getitem (to_mic_pk_pk mag) dof
  = (y <- getitem mag dof ;; Ok (to_mic_pk_pk y)).
Proof.
  unfold getitem, to_mic_pk_pk. cbn.
  destruct (shape mag) as [| n rest]; [done |].
  destruct (decide (dof < n)%nat); [| done]. cbn.
  by rewrite fmap_take, fmap_drop.
Qed.

Lemma forced_magnitude_m (self : instance) (dof : nat)
    (fig : magnitude_figure) :
  ForcedResponseResults_plot_magnitude self dof "m" = Ok fig →
  ylabel fig = "Amplitude $(m)$" ∧ y_axis_label fig = "Amplitude (m)"
  ∧ ForcedResponseResults_plot_magnitude self dof "mic-pk-pk"
    = Ok {| line_x := line_x fig;
            line_y := (λ x, (2 * x * 1000000)%Q) <$> line_y fig;
            xlim := xlim fig;
            ylabel := "Amplitude $(\mu pk-pk)$";
            y_axis_label := "Amplitude $(\mu pk-pk)$" |}.
Proof.
  unfold ForcedResponseResults_plot_magnitude.
  destruct (getattr self "frequency_range") as [vfr |]; cbn [bind];
    [| intros [=]].
  destruct (getattr self "magnitude") as [vmag |]; cbn [bind];
    [| intros [=]].
  rewrite (decide_True (P := "m" = "m")) by done.
  rewrite (decide_False (P := "mic-pk-pk" = "m")) by done.
  rewrite (decide_True (P := "mic-pk-pk" = "mic-pk-pk")) by done.
  cbn [bind read_local].
  destruct (as_ndarray vfr) as [fr |] eqn:Efr; cbn [bind]; [| intros [=]].
  destruct (as_ndarray vmag) as [mag |] eqn:Emag; cbn [bind]; [| intros [=]].
  cbn [bind as_ndarray]. rewrite getitem_to_mic_pk_pk.
  destruct (getitem mag dof) as [y |]; cbn [bind]; [| intros [=]].
  unfold ax_plot. change (shape (to_mic_pk_pk y)) with (shape y).
  destruct (decide (head (shape fr) = head (shape y))); cbn [bind];
    [| intros [=]].
  destruct (max_1d fr); cbn [bind]; [| intros [=]].
  by intros [= <-].
Qed.

(** X10: When the attribute [magnitude] is an array,
    [ForcedResponseResults.plot_magnitude] with units "mic-pk-pk" succeeds
    wherever the call with units "m" does, and draws the same frequencies
    against the magnitudes of that call passed through [2 * mag * 1e6]
    (exact in the rationals of this model; numpy rounds the products to
    binary64). *)
Theorem forced_magnitude_mic_pk_pk (self : instance) (dof : nat)
    (mag : ndarray) (fig : magnitude_figure) :
  getattr self "magnitude" = Ok (PyArray mag) →
  ForcedResponseResults_plot_magnitude self dof "m" = Ok fig →
  ∃ fig', ForcedResponseResults_plot_magnitude self dof "mic-pk-pk" = Ok fig'
          ∧ line_x fig' = line_x fig
          ∧ line_y fig'
            = data (to_mic_pk_pk {| shape := [length (line_y fig)];
                                    data := line_y fig |})
          ∧ xlim fig' = xlim fig.
Proof.
  intros _ (_ & _ & H)%forced_magnitude_m. by eexists.
Qed.

(** X11: In [FrequencyResponseResults.plot_magnitude] the units choose the
    axis labels only: whether the call succeeds and the curve it draws do
    not depend on them, so "mic-pk-pk" shows the unscaled magnitude. *)
Theorem frequency_magnitude_units_label_only (self : instance)
    (inp out : nat) (units units' : string) (fig : magnitude_figure) :
  FrequencyResponseResults_plot_magnitude self inp out units = Ok fig →
  ∃ fig', FrequencyResponseResults_plot_magnitude self inp out units' = Ok fig'
          ∧ line_x fig' = line_x fig
          ∧ line_y fig' = line_y fig
          ∧ xlim fig' = xlim fig.
Proof.
  unfold FrequencyResponseResults_plot_magnitude.
  repeat (bind_case; [| intros [=]]). intros [= <-]. by eexists.
Qed.

(** X12: [FrequencyResponseResults.plot] calls [plot_magnitude] and
    [plot_phase] twice on the same axes: where it succeeds, each
    matplotlib axes has gained the same curve twice, and the x label of
    the magnitude axes is cleared. *)
Theorem frequency_plot_draws_twice (self : instance) (inp out : nat)
    (a0 a1 : axes) (rp : response_plot) :
  FrequencyResponseResults_plot self inp out a0 a1 = Ok rp →
  FrequencyResponseResults_plot_magnitude self inp out "m" = Ok (bk_ax0 rp)
  ∧ FrequencyResponseResults_plot_phase self inp out = Ok (bk_ax1 rp)
  ∧ ax_lines (ax0 rp)
    = ax_lines a0 ++ [(line_x (bk_ax0 rp), line_y (bk_ax0 rp));
                      (line_x (bk_ax0 rp), line_y (bk_ax0 rp))]
  ∧ ax_lines (ax1 rp)
    = ax_lines a1 ++ [(line_x (bk_ax1 rp), line_y (bk_ax1 rp));
                      (line_x (bk_ax1 rp), line_y (bk_ax1 rp))]
  ∧ ax_xlabel (ax0 rp) = "".
Proof.
  unfold FrequencyResponseResults_plot.
  destruct (FrequencyResponseResults_plot_magnitude self inp out "m")
    as [m |]; cbn [bind]; [| intros [=]].
  destruct (FrequencyResponseResults_plot_phase self inp out)
    as [p |]; cbn [bind]; [| intros [=]].
  intros [= <-]. cbn. by rewrite <- !app_assoc.
Qed.

(** X13: [ForcedResponseResults.plot] forwards [units] to the first call of
    [plot_magnitude] only.  With units "mic-pk-pk" a successful call
    leaves on the magnitude axes the scaled curve followed by the
    unscaled one, labels the axes in metres, and returns the interactive
    figure in metres. *)
Theorem forced_plot_units_dropped (self : instance) (dof : nat)
    (a0 a1 : axes) (rp : response_plot) :
  ForcedResponseResults_plot self dof (Some "mic-pk-pk") a0 a1 = Ok rp →
  ForcedResponseResults_plot_magnitude self dof "m" = Ok (bk_ax0 rp)
  ∧ y_axis_label (bk_ax0 rp) = "Amplitude (m)"
  ∧ ax_ylabel (ax0 rp) = "Amplitude $(m)$"
  ∧ ax_lines (ax0 rp)
    = ax_lines a0
      ++ [(line_x (bk_ax0 rp),
           (λ x, (2 * x * 1000000)%Q) <$> line_y (bk_ax0 rp));
          (line_x (bk_ax0 rp), line_y (bk_ax0 rp))].
Proof.
  unfold ForcedResponseResults_plot.
  change (default "m" (Some "mic-pk-pk")) with "mic-pk-pk".
  destruct (ForcedResponseResults_plot_magnitude self dof "mic-pk-pk")
    as [m1 |] eqn:E1; cbn [bind]; [| intros [=]].
  destruct (ForcedResponseResults_plot_phase self dof)
    as [p |]; cbn [bind]; [| intros [=]].
  destruct (ForcedResponseResults_plot_magnitude self dof "m")
    as [m |] eqn:E; cbn [bind]; [| intros [=]].
  intros [= <-]. cbn.
  destruct (forced_magnitude_m _ _ _ E) as (Hy & Hl & Hmic).
  rewrite Hmic in E1. injection E1 as <-. cbn.
  split; [done | split; [done | split; [done |]]].
  by rewrite <- !app_assoc.
Qed.

Lemma enumerate_lookup {A} (l : list A) (i : nat) (x : A) :
  l !! i = Some x → enumerate l !! i = Some (i, x).
Proof. intros H. unfold enumerate. by rewrite list_lookup_imap, H. Qed.

Lemma mapM_lookup {A B} (f : A → result B) (l : list A) (bs : list B)
    (i : nat) (a : A) :
  mapM f l = Ok bs → l !! i = Some a → ∃ b, f a = Ok b.
Proof.
  intros H%mapM_Forall2 Ha.
  destruct (Forall2_lookup_l _ _ _ _ _ H Ha) as (b & _ & Hb). by exists b.
Qed.

(** X14: With more than one output, [plot_freq_response_grid] indexes the
    axes as [ax[2 * i, j]] for [i] over the outputs and [j] over the
    inputs, while the array of axes has twice as many rows as inputs and
    as many columns as outputs: unless there are as many inputs as
    outputs the call fails. *)
Theorem grid_needs_as_many_inputs_as_outputs
    (self : instance) (outs inps : list nat) :
  (1 < length outs)%nat →
  length outs ≠ length inps →
  ∃ e, FrequencyResponseResults_plot_freq_response_grid self outs inps
       = Raise e.
Proof.
  intros Houts Hne. unfold FrequencyResponseResults_plot_freq_response_grid.
  destruct (decide (_ ∨ _)) as [| Hz]; [by eexists |].
  destruct (decide (1 < length outs)%nat); [| lia].
  destruct (mapM _ (enumerate outs)) as [cells |] eqn:E; cbn [bind];
    [exfalso | by eexists].
  assert (Hin : ∃ inp0, inps !! 0%nat = Some inp0).
  { destruct inps; [| by eexists]. cbn in Hz. lia. }
  destruct Hin as [inp0 Hinp0].
  destruct (decide (length inps < length outs)%nat) as [Hlt | Hge].
  - destruct (lookup_lt_is_Some_2 outs (length inps) Hlt) as [o Ho].
    destruct (mapM_lookup _ _ _ _ _ E (enumerate_lookup _ _ _ Ho))
      as [row Hrow].
    destruct (mapM_lookup _ _ _ _ _ Hrow (enumerate_lookup _ _ _ Hinp0))
      as [cell Hcell].
    cbn in Hcell. unfold grid_cell in Hcell at 1.
    destruct (decide (_ ∧ _)) as [[H1 _] |]; [lia | done].
  - assert (Hlt : (length outs < length inps)%nat) by lia.
    destruct (lookup_lt_is_Some_2 inps (length outs) Hlt) as [inp Hinp].
    destruct (lookup_lt_is_Some_2 outs 0 ltac:(lia)) as [o Ho].
    destruct (mapM_lookup _ _ _ _ _ E (enumerate_lookup _ _ _ Ho))
      as [row Hrow].
    destruct (mapM_lookup _ _ _ _ _ Hrow (enumerate_lookup _ _ _ Hinp))
      as [cell Hcell].
    cbn in Hcell. unfold grid_cell in Hcell at 1.
    destruct (decide (_ ∧ _)) as [[_ H1] |]; [lia | done].
Qed.

Lemma grid_needs_as_many_inputs_as_outputs_witness :
  (1 < length [0%nat; 1%nat])%nat
  ∧ length [0%nat; 1%nat] ≠ length [0%nat]
  ∧ FrequencyResponseResults_plot_freq_response_grid response_example
      [0%nat; 1%nat] [0%nat] = Raise IndexError
  ∧ ∃ cells, FrequencyResponseResults_plot_freq_response_grid response_example
               [0%nat; 1%nat] [0%nat; 1%nat] = Ok cells.
Proof.
  assert (H1 : (1 < length [0%nat; 1%nat])%nat) by (cbn; lia).
  assert (H2 : length [0%nat; 1%nat] ≠ length [0%nat]) by (cbn; lia).
  split; [exact H1 | split; [exact H2 |]].
  destruct (grid_needs_as_many_inputs_as_outputs response_example
              [0%nat; 1%nat] [0%nat] H1 H2) as [e He].
  split.
  - rewrite He. vm_compute in He. symmetry. exact He.
  - eexists. vm_compute. reflexivity.
Defined.

(** *** Mode shapes *)

Lemma py_max_max_abs (l : list Q) (M : Q) :
  py_max (Qabs <$> l) = Ok M → M = max_abs l ∧ l ≠ [].
Proof.
  unfold py_max, max_abs. destruct l as [| x l]; [done |]. cbn.
  by intros [= <-].
Qed.

(** What a successful call of [ModeShapeResults.plot] has done. *)
Lemma mode_shape_plot_inv (self X' : instance) (mode : nat) (o : mode_orbits) :
  ModeShapeResults_plot self mode = Ok (X', o) →
  ∃ r c ev,
    shape (payload self) = [r; c] ∧ (mode < c)%nat
    ∧ column (payload self) mode = Ok ev
    ∧ strided 0 4 (data ev) ≠ [] ∧ strided 1 4 (data ev) ≠ []
    ∧ Forall (λ k, is_Some (inst_dict self !! k)) mode_shape_required
    ∧ X' = {| ob_type := ob_type self;
              payload := set_column (payload self) mode
                           ((λ x, (x / mode_divisor (data ev))%Q) <$> data ev);
              inst_dict := inst_dict self |}
    ∧ o = {| modex := strided 0 4
                        ((λ x, (x / mode_divisor (data ev))%Q) <$> data ev);
             modey := strided 1 4
                        ((λ x, (x / mode_divisor (data ev))%Q) <$> data ev) |}.
Proof.
  unfold ModeShapeResults_plot.
  destruct (column (payload self) mode) as [ev |] eqn:Eev; cbn [bind];
    [| done].
  unfold getattr.
  destruct (inst_dict self !! "nodes") eqn:A1; cbn [bind]; [| done].
  destruct (inst_dict self !! "nodes_pos") eqn:A2; cbn [bind]; [| done].
  destruct (inst_dict self !! "kappa_modes") eqn:A3; cbn [bind]; [| done].
  destruct (inst_dict self !! "elements_length") eqn:A4; cbn [bind]; [| done].
  assert (Hattrs : Forall (λ k, is_Some (inst_dict self !! k))
                     mode_shape_required).
  { repeat constructor; by eexists. }
  destruct (column_Ok _ _ _ Eev) as (r & c & rest & Hs & Hm & Hev).
  rewrite Hev. destruct rest; [| done].
  destruct (py_max (Qabs <$> strided 0 4 (data ev))) as [xmax |] eqn:Ex;
    cbn [bind]; [| done].
  destruct (py_max (Qabs <$> strided 1 4 (data ev))) as [ymax |] eqn:Ey;
    cbn [bind]; [| done].
  destruct (py_max_max_abs _ _ Ex) as [-> Hx].
  destruct (py_max_max_abs _ _ Ey) as [-> Hy].
  intros [= <- <-]. exists r, c, ev.
  split; [done | split; [done | split; [done | split; [done | split; [done |]]]]].
  split; [done | split; reflexivity].
Qed.

Lemma take1_drop {A} (l : list A) (k : nat) :
  take 1 (drop k l) = option_list (l !! k).
Proof.
  revert k. induction l as [| x l IH]; intros [| k]; cbn; try done.
Qed.

(** X15: [ModeShapeResults.plot] writes to the column of the plotted mode
    only: the class, the attributes, the shape and every other column of
    the payload are as before. *)
Theorem mode_shape_plot_frame (self X' : instance) (mode : nat)
    (o : mode_orbits) :
  ModeShapeResults_plot self mode = Ok (X', o) →
  ob_type X' = ob_type self
  ∧ inst_dict X' = inst_dict self
  ∧ shape (payload X') = shape (payload self)
  ∧ length (data (payload X')) = length (data (payload self))
  ∧ ∀ j, j ≠ mode → column (payload X') j = column (payload self) j.
Proof.
  intros (r & c & ev & Hs & Hm & Eev & _ & _ & _ & -> & _)%mode_shape_plot_inv.
  cbn. unfold set_column. rewrite Hs. cbn.
  split; [done | split; [done | split; [done | split]]].
  - by rewrite length_imap.
  - intros j Hj. unfold column. cbn. rewrite Hs.
    destruct (decide (j < c)%nat) as [Hjc |]; [| done].
    change (size_of []) with 1%nat.
    do 3 f_equal. apply list_fmap_ext.
    intros _ s _. rewrite !take1_drop, list_lookup_imap.
    destruct (data (payload self) !! _) as [x |] eqn:Hx; [| done]. cbn.
    destruct (decide _) as [Hmod |]; [| done].
    exfalso. apply Hj. rewrite <- Hmod. rewrite Nat.mul_1_r.
    rewrite Nat.add_comm, Nat.Div0.mod_add. symmetry. by apply Nat.mod_small.
Qed.

Lemma max_abs_dominant (l : list Q) : max_abs l = Qabs (dominant l).
Proof.
  unfold max_abs, dominant. destruct l as [| x l]; [done |]. cbn.
  revert x. induction l as [| y l IH]; intros x; [done |].
  cbn. rewrite <- IH. f_equal. unfold qmax, pick.
  by destruct (Qle_bool (Qabs y) (Qabs x)).
Qed.

Lemma argmax_from_pick (pre l : list Q) (b : Q) (ibest : nat) :
  nth ibest pre 0%Q = b → (ibest < length pre)%nat →
  nth (argmax_from (Qabs b) ibest (length pre) (Qabs <$> l)) (pre ++ l) 0%Q
  = foldl pick b l.
Proof.
  revert pre b ibest. induction l as [| x l IH]; intros pre b ibest Hb Hi.
  - cbn. by rewrite app_nil_r.
  - cbn. unfold pick at 2.
    replace (pre ++ x :: l) with ((pre ++ [x]) ++ l) by by rewrite <- app_assoc.
    replace (S (length pre)) with (length (pre ++ [x]))
      by (rewrite length_app; cbn; lia).
    destruct (Qle_bool (Qabs x) (Qabs b)).
    + apply IH; [| rewrite length_app; lia].
      rewrite app_nth1 by done. exact Hb.
    + apply IH; [| rewrite length_app; cbn; lia].
      rewrite app_nth2 by lia. by rewrite Nat.sub_diag.
Qed.

Lemma argmax_dominant (l : list Q) :
  nth (argmax (Qabs <$> l)) l 0%Q = dominant l.
Proof.
  destruct l as [| x l]; [done |]. cbn.
  apply (argmax_from_pick [x] l x 0); [done | cbn; lia].
Qed.

(** The divisor is the dominant x component, unless the dominant y
    component exceeds 0.4 times its absolute value. *)
Lemma mode_divisor_dominant (ev : list Q) :
  mode_divisor ev
  = if Qle_bool (Qabs (dominant (strided 1 4 ev)))
                ((2 # 5) * Qabs (dominant (strided 0 4 ev)))
    then dominant (strided 0 4 ev)
    else dominant (strided 1 4 ev).
Proof.
  unfold mode_divisor. by rewrite !max_abs_dominant, !argmax_dominant.
Qed.

Lemma foldl_pick_spec (l : list Q) (b : Q) :
  foldl pick b l ∈ b :: l
  ∧ ∀ x, x ∈ b :: l → (Qabs x <= Qabs (foldl pick b l))%Q.
Proof.
  revert b. induction l as [| y l IH]; intros b; cbn.
  - split; [by left |]. intros x ->%list_elem_of_singleton. apply Qle_refl.
  - destruct (IH (pick b y)) as [Hin Hle].
    assert (Hp : pick b y ∈ [b; y]
                 ∧ (Qabs b <= Qabs (pick b y))%Q
                 ∧ (Qabs y <= Qabs (pick b y))%Q).
    { unfold pick. destruct (Qle_bool (Qabs y) (Qabs b)) eqn:E.
      - apply Qle_bool_iff in E. split; [by left |].
        split; [apply Qle_refl | done].
      - split; [right; by left |]. split; [| apply Qle_refl].
        apply Qlt_le_weak, Qnot_le_lt. intros H%Qle_bool_iff. congruence. }
    destruct Hp as (Hp & Hb & Hy). split.
    + apply elem_of_cons in Hin as [-> | Hin].
      * apply elem_of_cons in Hp as [-> | ->%list_elem_of_singleton];
          [by left | right; by left].
      * by do 2 right.
    + intros x [-> | [-> | Hx]%elem_of_cons]%elem_of_cons.
      * eapply Qle_trans; [exact Hb |]. apply Hle. by left.
      * eapply Qle_trans; [exact Hy |]. apply Hle. by left.
      * apply Hle. by right.
Qed.

Lemma dominant_spec (l : list Q) :
  l ≠ [] →
  dominant l ∈ l ∧ ∀ x, x ∈ l → (Qabs x <= Qabs (dominant l))%Q.
Proof. destruct l as [| b l]; [done |]. intros _. apply foldl_pick_spec. Qed.

Lemma Qabs_zero (x : Q) : (Qabs x <= 0)%Q → (x == 0)%Q.
Proof.
  intros H. apply Qabs_Qle_condition in H as [H1 H2].
  apply Qle_antisym; [done |]. exact H1.
Qed.

Lemma Qabs_pos (d : Q) : ¬ (d == 0)%Q → (0 < Qabs d)%Q.
Proof.
  intros Hd. apply Qnot_le_lt. intros H. by apply Hd, Qabs_zero.
Qed.

(** When some x or y component is not zero, neither is the divisor. *)
Lemma mode_divisor_nonzero (ev : list Q) :
  strided 0 4 ev ≠ [] → strided 1 4 ev ≠ [] →
  Exists (λ x, ¬ (x == 0)%Q) (strided 0 4 ev ++ strided 1 4 ev) →
  ¬ (mode_divisor ev == 0)%Q.
Proof.
  intros Hx Hy Hex. rewrite mode_divisor_dominant.
  destruct (dominant_spec _ Hx) as [_ Mx].
  destruct (dominant_spec _ Hy) as [_ My].
  destruct (Qle_bool _ _) eqn:E.
  - apply Qle_bool_iff in E. intros H0.
    assert (Hax : (Qabs (dominant (strided 0 4 ev)) == 0)%Q)
      by (rewrite H0; reflexivity).
    rewrite Hax, Qmult_0_r in E.
    apply Exists_exists in Hex as (x & Hin & Hx0). apply Hx0, Qabs_zero.
    apply elem_of_app in Hin as [Hin | Hin].
    + rewrite <- Hax. by apply Mx.
    + eapply Qle_trans; [by apply My | exact E].
  - intros H0. assert (Hfalse : Qle_bool
      (Qabs (dominant (strided 1 4 ev)))
      ((2 # 5) * Qabs (dominant (strided 0 4 ev))) = true); [| congruence].
    apply Qle_bool_iff. rewrite H0. cbn [Qabs]. 
    apply Qmult_le_0_compat; [done | apply Qabs_nonneg].
Qed.

Lemma strided_from_fmap (f : Q → Q) (step k : nat) (l : list Q) :
  strided_from step k (f <$> l) = f <$> strided_from step k l.
Proof.
  revert k. induction l as [| x l IH]; intros k; [done |].
  cbn. destruct k; cbn; by rewrite IH.
Qed.

Lemma strided_fmap (f : Q → Q) (start step : nat) (l : list Q) :
  strided start step (f <$> l) = f <$> strided start step l.
Proof. unfold strided. by rewrite <- fmap_drop, strided_from_fmap. Qed.

Lemma argmax_from_lt (l : list Q) (b : Q) (ibest i : nat) :
  (ibest < i)%nat → (argmax_from b ibest i l < i + length l)%nat.
Proof.
  revert b ibest i. induction l as [| x l IH]; intros b ibest i Hi; cbn.
  - lia.
  - destruct (Qle_bool x b).
    + pose proof (IH b ibest (S i) ltac:(lia)). lia.
    + pose proof (IH x i (S i) ltac:(lia)). lia.
Qed.

Lemma argmax_lt (l : list Q) : l ≠ [] → (argmax l < length l)%nat.
Proof.
  destruct l as [| x l]; [done |]. intros _. cbn.
  pose proof (argmax_from_lt l x 0 1 ltac:(lia)). lia.
Qed.

(** The component at the position that [np.argmax] finds, after the
    division by [d]. *)
Lemma lookup_argmax_scaled (l : list Q) (d : Q) :
  l ≠ [] →
  ((λ x, (x / d)%Q) <$> l) !! argmax (Qabs <$> l) = Some (dominant l / d)%Q.
Proof.
  intros Hl. rewrite list_lookup_fmap, <- argmax_dominant.
  assert (Hlt : (argmax (Qabs <$> l) < length l)%nat).
  { rewrite <- (length_fmap Qabs l). apply argmax_lt. by destruct l. }
  destruct (lookup_lt_is_Some_2 _ _ Hlt) as [x Hx]. rewrite Hx. cbn.
  by rewrite (nth_lookup_Some _ _ _ _ Hx).
Qed.

(** X16: After a successful [ModeShapeResults.plot] on a mode with a
    non-zero x or y displacement, the mode has been divided by its x
    component of largest magnitude or by its y component of largest
    magnitude (the first one that [np.argmax] finds): the drawn x
    displacement at the position of the former, or the drawn y
    displacement at the position of the latter, equals 1. *)
Theorem mode_shape_plot_normalises (self X' : instance) (mode : nat)
    (o : mode_orbits) :
  ModeShapeResults_plot self mode = Ok (X', o) →
  Exists (λ x, ¬ (x == 0)%Q) (mode_components self mode) →
  ∃ ev y,
    column (payload self) mode = Ok ev
    ∧ (modex o !! argmax (Qabs <$> strided 0 4 (data ev)) = Some y
       ∨ modey o !! argmax (Qabs <$> strided 1 4 (data ev)) = Some y)
    ∧ (y == 1)%Q
    ∧ Exists (λ x, (x == 1)%Q) (modex o ++ modey o).
Proof.
  intros (r & c & ev & Hs & Hm & Eev & Hx & Hy & _ & _ & ->)%mode_shape_plot_inv.
  unfold mode_components. rewrite Eev. intros Hex. cbn [modex modey].
  pose proof (mode_divisor_nonzero _ Hx Hy Hex) as Hd.
  rewrite !strided_fmap.
  exists ev, (mode_divisor (data ev) / mode_divisor (data ev))%Q.
  assert (H1 : (mode_divisor (data ev) / mode_divisor (data ev) == 1)%Q)
    by by apply Qmult_inv_r.
  assert (Hpos :
    ((λ x, (x / mode_divisor (data ev))%Q) <$> strided 0 4 (data ev))
      !! argmax (Qabs <$> strided 0 4 (data ev))
    = Some (mode_divisor (data ev) / mode_divisor (data ev))%Q
    ∨ ((λ x, (x / mode_divisor (data ev))%Q) <$> strided 1 4 (data ev))
        !! argmax (Qabs <$> strided 1 4 (data ev))
      = Some (mode_divisor (data ev) / mode_divisor (data ev))%Q).
  { rewrite !lookup_argmax_scaled by done.
    rewrite mode_divisor_dominant. destruct (Qle_bool _ _); [by left | by right]. }
  split; [done | split; [exact Hpos | split; [exact H1 |]]].
  apply Exists_exists. eexists. split; [| exact H1].
  apply elem_of_app.
  destruct Hpos as [Hp | Hp]; [left | right];
    by apply list_elem_of_lookup_2 in Hp.
Qed.

(** *** The bending moment loop *)

Lemma bm_segments_from_closed (fuel i n : nat) :
  ((n - i - 1) `div` 2 ≤ fuel)%nat →
  bm_segments_from fuel i n
  = (λ k, i + 2 * k)%nat <$> seq 0 ((n - i - 1) `div` 2).
Proof.
  revert i. induction fuel as [| fuel IH]; intros i Hf.
  - assert ((n - i - 1) `div` 2 = 0)%nat as -> by lia. done.
  - cbn [bm_segments_from]. destruct (decide (n < i + 3)%nat) as [Hn | Hn].
    + assert ((n - i - 1) `div` 2 = 0)%nat as ->; [| done].
      apply Nat.div_small. lia.
    + assert (Hd : ((n - i - 1) `div` 2
                    = S ((n - (i + 2) - 1) `div` 2))%nat).
      { replace (n - i - 1)%nat with ((n - (i + 2) - 1) + 1 * 2)%nat by lia.
        rewrite Nat.div_add by lia. lia. }
      rewrite Hd. rewrite IH by lia. cbn [seq fmap list_fmap].
      f_equal; [lia |]. rewrite <- fmap_S_seq, <- list_fmap_compose.
      apply list_fmap_ext. intros _ k _. cbn. lia.
Qed.

(** X18: The bending moment loop ends by its own test, draws [(n - 1) / 2]
    parabolas starting at the even nodes 0, 2, 4, ..., each within the
    nodes, and reaches the last node exactly when the number of nodes is
    odd: with an even number of nodes the span between the last two nodes
    gets no curve. *)
Theorem bm_segments_cover (n : nat) :
  (∀ fuel, (n ≤ fuel)%nat → bm_segments_from fuel 0 n = bm_segments n)
  ∧ bm_segments n = (λ k, 2 * k)%nat <$> seq 0 ((n - 1) `div` 2)
  ∧ Forall (λ i, i + 2 < n)%nat (bm_segments n)
  ∧ ((3 ≤ n)%nat →
     ∃ i, last (bm_segments n) = Some i
          ∧ (i + 2 = if Nat.even n then n - 2 else n - 1)%nat).
Proof.
  assert (Hlt : (2 * ((n - 1) `div` 2) ≤ n - 1)%nat)
    by apply Nat.Div0.mul_div_le.
  assert (Hc : ∀ fuel, (n ≤ fuel)%nat →
            bm_segments_from fuel 0 n
            = (λ k, 2 * k)%nat <$> seq 0 ((n - 1) `div` 2)).
  { intros fuel Hf. rewrite bm_segments_from_closed.
    - by rewrite Nat.sub_0_r.
    - rewrite Nat.sub_0_r. lia. }
  assert (Hn : bm_segments n = (λ k, 2 * k)%nat <$> seq 0 ((n - 1) `div` 2))
    by by apply Hc.
  split; [intros fuel Hf; by rewrite Hn, Hc |].
  split; [done |].
  split.
  - rewrite Hn. apply Forall_fmap, Forall_forall.
    intros k [_ Hk]%elem_of_seq. cbn. lia.
  - intros H3. rewrite Hn.
    pose proof (Nat.div_mod_eq (n - 1) 2) as Hm.
    pose proof (Nat.mod_upper_bound (n - 1) 2 ltac:(lia)) as Hb.
    destruct ((n - 1) `div` 2)%nat as [| q] eqn:Hq; [lia |].
    exists (2 * q)%nat. split.
    + rewrite seq_S, fmap_app. cbn. apply last_snoc.
    + destruct (Nat.even n) eqn:He.
      * apply Nat.even_spec in He as [m ->]. lia.
      * assert (Ho : Nat.odd n = true)
          by (rewrite <- Nat.negb_even, He; done).
        apply Nat.odd_spec in Ho as [m ->]. lia.
Qed.

Lemma bm_segments_cover_witness :
  bm_segments_from 9 0 4 = bm_segments 4
  ∧ bm_segments 4 = [0%nat]
  ∧ bm_segments 5 = [0%nat; 2%nat]
  ∧ ∃ i, last (bm_segments 4) = Some i ∧ (i + 2 = 2)%nat.
Proof.
  destruct (bm_segments_cover 4) as (Hf & _ & _ & Hl).
  split; [apply Hf; lia |].
  split; [reflexivity | split; [reflexivity |]].
  destruct (Hl ltac:(lia)) as (i & Hi & Hi2). exists i.
  split; [exact Hi | exact Hi2].
Defined.

(** *** Instances *)

Lemma forced_magnitude_mic_pk_pk_witness :
  ∃ fig fig',
    ForcedResponseResults_plot_magnitude forced_example 0 "m" = Ok fig
    ∧ ForcedResponseResults_plot_magnitude forced_example 0 "mic-pk-pk"
      = Ok fig'
    ∧ line_y fig = [3%Q; 4%Q]
    ∧ line_y fig' = (λ x, (2 * x * 1000000)%Q) <$> [3%Q; 4%Q].
Proof.
  assert (H : ∃ fig, ForcedResponseResults_plot_magnitude forced_example 0 "m"
                     = Ok fig ∧ line_y fig = [3%Q; 4%Q]).
  { eexists. split; vm_compute; reflexivity. }
  destruct H as (fig & Hfig & Hy).
  assert (Hmag : getattr forced_example "magnitude"
                 = Ok (PyArray {| shape := [1%nat; 2%nat];
                                  data := [3%Q; 4%Q] |}))
    by (vm_compute; reflexivity).
  destruct (forced_magnitude_mic_pk_pk forced_example 0 _ fig Hmag Hfig)
    as (fig' & Hfig' & _ & Hy' & _).
  exists fig, fig'. split; [exact Hfig | split; [exact Hfig' |]].
  split; [exact Hy |]. rewrite Hy'. by rewrite Hy.
Defined.

Lemma frequency_magnitude_units_label_only_witness :
  ∃ fig fig',
    FrequencyResponseResults_plot_magnitude response_example 0 1 "m" = Ok fig
    ∧ FrequencyResponseResults_plot_magnitude response_example 0 1 "mic-pk-pk"
      = Ok fig'
    ∧ line_y fig = [3%Q; 4%Q]
    ∧ line_y fig' = [3%Q; 4%Q].
Proof.
  assert (H : ∃ fig, FrequencyResponseResults_plot_magnitude
                       response_example 0 1 "m" = Ok fig
                     ∧ line_y fig = [3%Q; 4%Q]).
  { eexists. split; vm_compute; reflexivity. }
  destruct H as (fig & Hfig & Hy).
  destruct (frequency_magnitude_units_label_only response_example 0 1
              "m" "mic-pk-pk" fig Hfig) as (fig' & Hfig' & _ & Hy' & _).
  exists fig, fig'. split; [exact Hfig | split; [exact Hfig' |]].
  split; [exact Hy |]. by rewrite Hy'.
Defined.

Lemma frequency_plot_draws_twice_witness :
  ∃ rp, FrequencyResponseResults_plot response_example 0 1 new_axes new_axes
        = Ok rp
        ∧ ax_lines (ax0 rp)
          = [([0%Q; 10%Q], [3%Q; 4%Q]); ([0%Q; 10%Q], [3%Q; 4%Q])].
Proof.
  assert (H : ∃ rp, FrequencyResponseResults_plot response_example 0 1
                      new_axes new_axes = Ok rp
                    ∧ line_x (bk_ax0 rp) = [0%Q; 10%Q]
                    ∧ line_y (bk_ax0 rp) = [3%Q; 4%Q]).
  { eexists. split; [| split]; vm_compute; reflexivity. }
  destruct H as (rp & Hrp & Hx & Hy). exists rp. split; [exact Hrp |].
  destruct (frequency_plot_draws_twice response_example 0 1 new_axes new_axes
              rp Hrp) as (_ & _ & Hl & _).
  rewrite Hl, Hx, Hy. reflexivity.
Defined.

Lemma forced_plot_units_dropped_witness :
  ∃ rp, ForcedResponseResults_plot forced_example 0 (Some "mic-pk-pk")
          new_axes new_axes = Ok rp
        ∧ y_axis_label (bk_ax0 rp) = "Amplitude (m)"
        ∧ ax_lines (ax0 rp)
          = [([0%Q; 10%Q], (λ x, (2 * x * 1000000)%Q) <$> [3%Q; 4%Q]);
             ([0%Q; 10%Q], [3%Q; 4%Q])].
Proof.
  assert (H : ∃ rp, ForcedResponseResults_plot forced_example 0
                      (Some "mic-pk-pk") new_axes new_axes = Ok rp
                    ∧ line_x (bk_ax0 rp) = [0%Q; 10%Q]
                    ∧ line_y (bk_ax0 rp) = [3%Q; 4%Q]).
  { eexists. split; [| split]; vm_compute; reflexivity. }
  destruct H as (rp & Hrp & Hx & Hy). exists rp. split; [exact Hrp |].
  destruct (forced_plot_units_dropped forced_example 0 new_axes new_axes
              rp Hrp) as (_ & Hl & _ & Hlines).
  split; [exact Hl |]. rewrite Hlines, Hx, Hy. reflexivity.
Defined.

Lemma mode_shape_plot_frame_witness :
  ∃ X' o, ModeShapeResults_plot mode_shape_example 0 = Ok (X', o)
          ∧ inst_dict X' = inst_dict mode_shape_example
          ∧ column (payload X') 1 = column (payload mode_shape_example) 1.
Proof.
  assert (H : ∃ X' o, ModeShapeResults_plot mode_shape_example 0
                      = Ok (X', o)).
  { eexists _, _. vm_compute. reflexivity. }
  destruct H as (X' & o & H). exists X', o. split; [exact H |].
  destruct (mode_shape_plot_frame mode_shape_example X' 0 o H)
    as (_ & Hd & _ & _ & Hc).
  split; [exact Hd | apply Hc; lia].
Defined.

Lemma mode_shape_example_nonzero :
  Exists (λ x, ¬ (x == 0)%Q) (mode_components mode_shape_example 0).
Proof. apply Exists_cons_hd. intros H. discriminate H. Defined.

Lemma mode_shape_plot_normalises_witness :
  ∃ X' o, ModeShapeResults_plot mode_shape_example 0 = Ok (X', o)
          ∧ Exists (λ x, ¬ (x == 0)%Q)
              (mode_components mode_shape_example 0)
          ∧ Exists (λ x, (x == 1)%Q) (modex o ++ modey o).
Proof.
  assert (H : ∃ X' o, ModeShapeResults_plot mode_shape_example 0
                      = Ok (X', o)).
  { eexists _, _. vm_compute. reflexivity. }
  destruct H as (X' & o & H). exists X', o. split; [exact H |].
  split; [exact mode_shape_example_nonzero |].
  destruct (mode_shape_plot_normalises mode_shape_example X' 0 o H
              mode_shape_example_nonzero) as (_ & _ & _ & _ & _ & Hex).
  exact Hex.
Defined.

Lemma forced_magnitude_other_units (self : instance) (dof : nat)
    (units : string) :
  units ≠ "m" → units ≠ "mic-pk-pk" →
  ∃ e, ForcedResponseResults_plot_magnitude self dof units = Raise e.
Proof.
  intros Hm Hmic. unfold ForcedResponseResults_plot_magnitude.
  do 2 (bind_case; [| by eexists]).
  destruct (decide (units = "m")) as [| _]; [done |].
  destruct (decide (units = "mic-pk-pk")) as [| _]; [done |].
  cbn [bind read_local].
  repeat (bind_case; [| by eexists]). by eexists.
Qed.

(** X19: [ForcedResponseResults.plot] reads [units] from its keyword
    arguments: without the entry it behaves as with units "m", and with
    any units other than "m" and "mic-pk-pk" it fails, because its first
    call of [plot_magnitude] does. *)
Theorem forced_plot_units (self : instance) (dof : nat)
    (units : string) (a0 a1 : axes) :
  units ≠ "m" → units ≠ "mic-pk-pk" →
  ForcedResponseResults_plot self dof None a0 a1
  = ForcedResponseResults_plot self dof (Some "m") a0 a1
  ∧ ∃ e, ForcedResponseResults_plot self dof (Some units) a0 a1 = Raise e.
Proof.
  intros Hm Hmic. split; [reflexivity |].
  unfold ForcedResponseResults_plot.
  change (default "m" (Some units)) with units.
  destruct (forced_magnitude_other_units self dof units Hm Hmic) as [e ->].
  by exists e.
Qed.

Lemma forced_plot_units_witness :
  "dB" ≠ "m" ∧ "dB" ≠ "mic-pk-pk"
  ∧ (∃ rp, ForcedResponseResults_plot forced_example 0 None new_axes new_axes
           = Ok rp)
  ∧ ForcedResponseResults_plot forced_example 0 (Some "dB") new_axes new_axes
    = Raise UnboundLocalError.
Proof.
  assert (H1 : "dB" ≠ "m") by discriminate.
  assert (H2 : "dB" ≠ "mic-pk-pk") by discriminate.
  split; [exact H1 | split; [exact H2 |]].
  destruct (forced_plot_units forced_example 0 "dB" new_axes new_axes H1 H2)
    as [Hnone [e He]].
  split.
  - rewrite Hnone. eexists. vm_compute. reflexivity.
  - rewrite He. vm_compute in He. symmetry. exact He.
Defined.
